(** * quinn: the Scala-to-PySpark line rewriter ([quinn/scala_to_pyspark.py])

    A shallow embedding of the class [ScalaToPyspark] and of the pieces of the
    Python runtime it calls ([str] methods, [re.search], [readlines]),
    followed by the properties of the rewriter pipeline and of its signature
    cleaner.

    Text is modelled as [list ascii]: a Python [str] whose code points are
    below 256, with Python's own classification of those code points
    ([str.isspace], [\s], [\w]). *)

From Stdlib Require Import List Ascii Bool Arith Lia.
From Stdlib Require String.
Import ListNotations.
Import String.StringSyntax.
Delimit Scope string_scope with string.
Local Open Scope list_scope.
Local Open Scope bool_scope.

(* ================================================================= *)
(** ** Characters and string literals *)

Definition str := list ascii.

(** A Python literal without escapes. *)
Definition py (s : String.string) : str := String.list_ascii_of_string s.
Arguments py s%_string_scope.

(** ["\n"] and ["\r"]. *)
Definition LF : ascii := "010"%char.
Definition CR : ascii := "013"%char.

(** The double quote. *)
Definition DQ : ascii := "034"%char.

Definition in_range (lo hi n : nat) : bool := (lo <=? n) && (n <=? hi).

(** [str.isspace] on one character, which is also the class [\s] of [re]:
    code points 9-13, 28-32, 133 and 160. *)
Definition isspace (c : ascii) : bool :=
  let n := nat_of_ascii c in
  in_range 9 13 n || in_range 28 32 n || (n =? 133) || (n =? 160).

(** [str.isalnum] on one character (letters, digits and numeric characters
    of the first 256 code points). *)
Definition isalnum (c : ascii) : bool :=
  let n := nat_of_ascii c in
  in_range 48 57 n || in_range 65 90 n || in_range 97 122 n
  || (n =? 170) || in_range 178 179 n || (n =? 181) || in_range 185 186 n
  || in_range 188 190 n || in_range 192 214 n || in_range 216 246 n
  || in_range 248 255 n.

(** The class [\w] of [re]: alphanumeric or underscore. *)
Definition is_word (c : ascii) : bool := isalnum c || Ascii.eqb c "_".

(** The class [.] of [re] without DOTALL: anything but a newline. *)
Definition dot (c : ascii) : bool := negb (Ascii.eqb c LF).

(* ================================================================= *)
(** ** The [str] methods the rewriter calls *)

(** [s.startswith(prefix)] *)
Fixpoint startswith (s prefix : str) {struct prefix} : bool :=
  match prefix with
  | [] => true
  | p :: prefix' =>
      match s with
      | c :: s' => Ascii.eqb c p && startswith s' prefix'
      | [] => false
      end
  end.

(** [sub in s] *)
Fixpoint contains (s sub : str) : bool :=
  startswith s sub ||
  match s with
  | [] => false
  | _ :: s' => contains s' sub
  end.

(** [s.replace(old, new)]: every occurrence of [old], scanning from the left
    and resuming after each replaced occurrence.  [skip] counts the
    characters of the occurrence just replaced that are still to be passed
    over. *)
Fixpoint replace_from (old new : str) (skip : nat) (s : str) : str :=
  match s with
  | [] => match skip, old with
          | O, [] => new
          | _, _ => []
          end
  | c :: s' =>
      match skip with
      | S n => replace_from old new n s'
      | O => if startswith s old
             then new ++ (match old with
                          | [] => c :: replace_from old new 0 s'
                          | _ :: old' => replace_from old new (length old') s'
                          end)
             else c :: replace_from old new 0 s'
      end
  end.

Definition replace (s old new : str) : str := replace_from old new 0 s.

(** [s.lstrip()], [s.rstrip()], [s.strip()] *)
Fixpoint lstrip (s : str) : str :=
  match s with
  | c :: s' => if isspace c then lstrip s' else s
  | [] => []
  end.

Definition rstrip (s : str) : str := rev (lstrip (rev s)).

Definition strip (s : str) : str := rstrip (lstrip s).

(** Puts a character in front of the first field of a split. *)
Definition cons_field (c : ascii) (fields : list str) : list str :=
  match fields with
  | f :: fields' => (c :: f) :: fields'
  | [] => [[c]]
  end.

(** [s.split(sep)] for a separator that is not empty (Python raises
    ValueError on an empty one; the rewriter only passes literals). *)
Fixpoint split_from (sep : str) (skip : nat) (s : str) : list str :=
  match s with
  | [] => [[]]
  | c :: s' =>
      match skip with
      | S n => split_from sep n s'
      | O => if startswith s sep
             then [] :: split_from sep (length sep - 1) s'
             else cons_field c (split_from sep 0 s')
      end
  end.

Definition split (s sep : str) : list str := split_from sep 0 s.

(** [sep.join(parts)] *)
Fixpoint join (sep : str) (parts : list str) : str :=
  match parts with
  | [] => []
  | [x] => x
  | x :: parts' => x ++ sep ++ join sep parts'
  end.

(** [fields[0]] of a split, which is never empty. *)
Definition first_field (fields : list str) : str := hd [] fields.

(* ================================================================= *)
(** ** Reading the file *)

(** Text mode with the default [newline=None]: ["\r\n"] and a lone ["\r"]
    are read as ["\n"]. *)
Fixpoint universal_newlines (s : str) : str :=
  match s with
  | [] => []
  | c :: s' =>
      if Ascii.eqb c CR then
        LF :: match s' with
              | d :: s'' => if Ascii.eqb d LF then universal_newlines s''
                            else universal_newlines s'
              | [] => []
              end
      else c :: universal_newlines s'
  end.

(** The lines of a translated text, each with its ["\n"] (the last one may
    have none). *)
Fixpoint split_lines (s : str) : list str :=
  match s with
  | [] => []
  | c :: s' => if Ascii.eqb c LF then [c] :: split_lines s'
               else cons_field c (split_lines s')
  end.

(** [text_file.readlines()] on a file of content [text]. *)
Definition readlines (text : str) : list str :=
  split_lines (universal_newlines text).

(* ================================================================= *)
(** ** The fragment of [re] the rewriter uses

    A backtracking matcher in the order of Python's engine: a repetition is
    greedy and gives characters back one at a time, the first way to match
    the whole pattern wins, and [search] tries the start positions from the
    left. *)

Inductive regex : Type :=
| Lit (t : str)                 (* literal text *)
| Star (p : ascii -> bool)      (* c*  over a character class *)
| Plus (p : ascii -> bool)      (* c+  over a character class *)
| Group (r : regex)             (* ( r ) *)
| Seq (r1 r2 : regex).

(** Greedy [c*] in front of the continuation [k], which receives the matched
    text and the rest of the subject. *)
Fixpoint star {A : Type} (p : ascii -> bool) (s : str)
         (k : str -> str -> option A) : option A :=
  match s with
  | c :: s' =>
      if p c then
        match star p s' (fun m rest => k (c :: m) rest) with
        | Some x => Some x
        | None => k [] s
        end
      else k [] s
  | [] => k [] []
  end.

(** [rmatch r s g k]: match [r] at the head of [s]; [g] holds the groups
    closed so far; [k] receives the text [r] matched, the groups and the
    rest.  The groups of the patterns here are not nested, so the order in
    which they close is their numbering. *)
Fixpoint rmatch {A : Type} (r : regex) (s : str) (g : list str)
         (k : str -> list str -> str -> option A) : option A :=
  match r with
  | Lit t => if startswith s t then k t g (skipn (length t) s) else None
  | Star p => star p s (fun m rest => k m g rest)
  | Plus p =>
      match s with
      | c :: s' => if p c then star p s' (fun m rest => k (c :: m) g rest)
                   else None
      | [] => None
      end
  | Group r1 => rmatch r1 s g (fun m g' rest => k m (g' ++ [m]) rest)
  | Seq r1 r2 =>
      rmatch r1 s g (fun m1 g1 s1 =>
        rmatch r2 s1 g1 (fun m2 g2 s2 => k (m1 ++ m2) g2 s2))
  end.

(** A match object: the text of groups 1, 2, ... *)
Definition Match := list str.

Definition group (n : nat) (m : Match) : str := nth (n - 1) m [].

(** A match of [r] anchored at the head of [s]. *)
Definition match_here (r : regex) (s : str) : option Match :=
  rmatch r s [] (fun _ g _ => Some g).

(** [re.search(r, s)]: the match at the leftmost start position that has
    one. *)
Fixpoint search (r : regex) (s : str) : option Match :=
  match match_here r s with
  | Some m => Some m
  | None => match s with
            | [] => None
            | _ :: s' => search r s'
            end
  end.

(* ================================================================= *)
(** ** class ScalaToPyspark *)

Record ScalaToPyspark := { scala_path : String.string }.

(** The pattern of [clean_function_definition], token by token:
    [( \s* )]  [def ]  [( \w+ )]  [.*]  [\(]  [( .* )]  [\)]. *)
Definition signature_pattern : regex :=
  Seq (Group (Star isspace))
  (Seq (Lit (py "def "))
  (Seq (Group (Plus is_word))
  (Seq (Star dot)
  (Seq (Lit (py "("))
  (Seq (Group (Star dot))
       (Lit (py ")"))))))).

(** [clean_args] *)
Definition clean_args (args : str) : str :=
  let unannoted_args_list :=
    map (fun a => first_field (split a (py ": "))) (split args (py ", ")) in
  join (py ", ") unannoted_args_list.

(** [clean_function_definition] *)
Definition clean_function_definition (s : str) : str :=
  match search signature_pattern s with
  | Some m =>
      let whitespace := group 1 m in
      let method_name := group 2 m in
      let args := group 3 m in
      let cleaned_args := clean_args args in
      whitespace ++ py "def " ++ method_name ++ py "(" ++ cleaned_args
        ++ py "):" ++ [LF]
  | None => s
  end.

(** The statements of [lines] after the read, one definition each. *)

Definition dataframe_import : str :=
  py "from pyspark.sql.dataframe import DataFrame" ++ [LF].

Definition functions_import : str :=
  py "import pyspark.sql.functions as F" ++ [LF].

Definition remove_package (result : list str) : list str :=
  filter (fun line => negb (startswith line (py "package"))) result.

Definition replace_dataframe_import (result : list str) : list str :=
  map (fun x => if startswith x (py "import org.apache.spark.sql.DataFrame")
                then dataframe_import else x) result.

Definition replace_functions_import (result : list str) : list str :=
  map (fun x => if startswith x (py "import org.apache.spark.sql.functions")
                then functions_import else x) result.

Definition remove_scala_imports (result : list str) : list str :=
  filter (fun line => negb (startswith line (py "import scala"))) result.

Definition remove_val (result : list str) : list str :=
  map (fun x => replace x (py "val ") (py "")) result.

Definition remove_var (result : list str) : list str :=
  map (fun x => replace x (py "var ") (py "")) result.

Definition str_eqb (a b : str) : bool :=
  if list_eq_dec ascii_dec a b then true else false.

Definition remove_closing_braces (result : list str) : list str :=
  filter (fun line => negb (str_eqb (strip line) (py "}"))) result.

Definition clean_definitions (result : list str) : list str :=
  map (fun x => if startswith (lstrip x) (py "def")
                then clean_function_definition x else x) result.

Definition prefix_col (result : list str) : list str :=
  map (fun x => replace x (py "col(") (py "F.col(")) result.

Definition replace_null (result : list str) : list str :=
  map (fun x => replace x (py "null") (py "None")) result.

Definition replace_true (result : list str) : list str :=
  map (fun x => replace x (py "true") (py "True")) result.

Definition replace_false (result : list str) : list str :=
  map (fun x => replace x (py "false") (py "False")) result.

(** The body of [lines] from the first statement after the [with] block to
    the [return]. *)
Definition transform (result : list str) : list str :=
  let result := remove_package result in
  let result := replace_dataframe_import result in
  let result := replace_functions_import result in
  let result := remove_scala_imports result in
  let result := remove_val result in
  let result := remove_var result in
  let result := remove_closing_braces result in
  let result := clean_definitions result in
  let result := prefix_col result in
  let result := replace_null result in
  let result := replace_true result in
  let result := replace_false result in
  result.

(** The same statements as an ordered list. *)
Definition stages : list (list str -> list str) :=
  [ remove_package; replace_dataframe_import; replace_functions_import;
    remove_scala_imports; remove_val; remove_var; remove_closing_braces;
    clean_definitions; prefix_col; replace_null; replace_true;
    replace_false ].

(** What [lines] touches outside its arguments: the files, by path, as the
    text a read in text mode decodes ([None]: the file cannot be opened). *)
Definition FileSystem := String.string -> option str.

Inductive outcome (A : Type) : Type :=
| Returned (a : A)
| Raised_OSError.
Arguments Returned {A} a.
Arguments Raised_OSError {A}.

Definition IO (A : Type) : Type := FileSystem -> outcome A * FileSystem.

(** [lines]: the file is opened and read whole, then rewritten; an error of
    [open] leaves before any rewriting. *)
Definition lines (self : ScalaToPyspark) : IO (list str) :=
  fun fs =>
    match fs (scala_path self) with
    | None => (Raised_OSError, fs)
    | Some text_file =>
        let result := readlines text_file in
        (Returned (transform result), fs)
    end.

(* ================================================================= *)
(** ** Vocabulary of the statements *)

(** The leading whitespace of a line: what [lstrip] removes. *)
Fixpoint leading_whitespace (s : str) : str :=
  match s with
  | c :: s' => if isspace c then c :: leading_whitespace s' else []
  | [] => []
  end.

(** The word token at the head of a text: its longest prefix of [\w]
    characters. *)
Fixpoint word_token (s : str) : str :=
  match s with
  | c :: s' => if is_word c then c :: word_token s' else []
  | [] => []
  end.

(** A line as [readlines] gives it: no newline except as last character. *)
Definition one_line (l : str) : bool := forallb dot (removelast l).

(** The line terminator a line carries: ["\n"] or nothing. *)
Definition terminator (l : str) : str :=
  match rev l with
  | c :: _ => if Ascii.eqb c LF then [LF] else []
  | [] => []
  end.

(** The text of [s] before the first occurrence of [sep] (all of [s] when
    there is none). *)
Fixpoint before_first (sep s : str) : str :=
  if startswith s sep then []
  else match s with
       | [] => []
       | c :: s' => c :: before_first sep s'
       end.

(** The text of [s] after the first occurrence of the character [c]. *)
Fixpoint after_char (c : ascii) (s : str) : option str :=
  match s with
  | [] => None
  | d :: s' => if Ascii.eqb d c then Some s' else after_char c s'
  end.

(** The content of the first parenthesized group appearing on a line: from
    the first ["("] to the first [")"] after it. *)
Definition first_paren_group (l : str) : option str :=
  match after_char "(" l with
  | Some rest => if contains rest (py ")")
                 then Some (before_first (py ")") rest) else None
  | None => None
  end.

(** The texts a pattern can match, whatever the order in which the matcher
    tries them. *)
Inductive matches : regex -> str -> Prop :=
| matches_Lit t : matches (Lit t) t
| matches_Star p m : forallb p m = true -> matches (Star p) m
| matches_Plus p m : m <> [] -> forallb p m = true -> matches (Plus p) m
| matches_Group r m : matches r m -> matches (Group r) m
| matches_Seq r1 r2 m1 m2 :
    matches r1 m1 -> matches r2 m2 -> matches (Seq r1 r2) (m1 ++ m2).

(** A text cut the way the signature pattern reads it from its head:
    whitespace, [def ], a name, anything up to a parenthesis, the parameter
    text, the closing parenthesis and what is left. *)
Definition signature_cut (s ws name mid args post : str) : Prop :=
  s = ws ++ py "def " ++ name ++ mid ++ py "(" ++ args ++ py ")" ++ post
  /\ forallb isspace ws = true
  /\ name <> [] /\ forallb is_word name = true
  /\ forallb dot mid = true /\ forallb dot args = true.

(** What greediness adds to a cut: the name is not followed by a word
    character, the parameter text holds no opening parenthesis, and no
    closing parenthesis follows on the same line. *)
Definition greedy_cut (mid args post : str) : Prop :=
  (forall c r, mid = c :: r -> is_word c = false)
  /\ ~ In "("%char args
  /\ (forall p1 p2, post = p1 ++ py ")" ++ p2 -> forallb dot p1 = false).

(** [display]: [print] writes the joined lines and a newline to the standard
    output, kept here beside the files, and the method returns [None]. *)
Definition display (self : ScalaToPyspark) (fs : FileSystem) (stdout : str)
  : outcome unit * FileSystem * str :=
  match lines self fs with
  | (Returned result, fs') =>
      (Returned tt, fs', stdout ++ join (py "") result ++ [LF])
  | (Raised_OSError, fs') => (Raised_OSError, fs', stdout)
  end.

(** The twelve statements read line by line: what one line becomes, or
    [None] when a filter drops it. *)
Definition rewrite_line (x : str) : option str :=
  if startswith x (py "package") then None else
  let x := if startswith x (py "import org.apache.spark.sql.DataFrame")
           then dataframe_import else x in
  let x := if startswith x (py "import org.apache.spark.sql.functions")
           then functions_import else x in
  if startswith x (py "import scala") then None else
  let x := replace x (py "val ") (py "") in
  let x := replace x (py "var ") (py "") in
  if str_eqb (strip x) (py "}") then None else
  let x := if startswith (lstrip x) (py "def")
           then clean_function_definition x else x in
  let x := replace x (py "col(") (py "F.col(") in
  let x := replace x (py "null") (py "None") in
  let x := replace x (py "true") (py "True") in
  let x := replace x (py "false") (py "False") in
  Some x.

Definition line_output (x : str) : list str :=
  match rewrite_line x with
  | Some y => [y]
  | None => []
  end.

(** The lines no output line comes from: a package line, a [scala] import,
    and a line that is a lone closing brace once [val ] and [var ] are
    stripped from it (the two Spark imports are rewritten before the
    brace test and never dropped). *)
Definition is_dropped (l : str) : bool :=
  startswith l (py "package")
  || startswith l (py "import scala")
  || (negb (startswith l (py "import org.apache.spark.sql.DataFrame"))
      && negb (startswith l (py "import org.apache.spark.sql.functions"))
      && str_eqb (strip (replace (replace l (py "val ") (py ""))
                                 (py "var ") (py "")))
                 (py "}")).

(** A line on which no statement has anything to do. *)
Definition inert (l : str) : bool :=
  negb (startswith l (py "package"))
  && negb (startswith l (py "import org.apache.spark.sql.DataFrame"))
  && negb (startswith l (py "import org.apache.spark.sql.functions"))
  && negb (startswith l (py "import scala"))
  && negb (contains l (py "val "))
  && negb (contains l (py "var "))
  && negb (str_eqb (strip l) (py "}"))
  && (negb (startswith (lstrip l) (py "def"))
      || match search signature_pattern l with
         | None => true
         | Some _ => false
         end)
  && negb (contains l (py "col("))
  && negb (contains l (py "null"))
  && negb (contains l (py "true"))
  && negb (contains l (py "false")).

(** Lines the statements below are evaluated on. *)

Definition add_line : str := py "  def add(a: Int, b: Int): Int = {" ++ [LF].

Definition curried_line : str :=
  py "def f(a: Int)(b: Int): Int = a + b" ++ [LF].

Definition defs_line : str := py "defs def f(a: Int)" ++ [LF].

Definition no_paren_line : str := py "def answer: Int = 42" ++ [LF].

Definition indented_package_line : str :=
  py "  package com.example.foo" ++ [LF].

Definition package_line : str := py "package com.example.foo" ++ [LF].

Definition unterminated_import_line : str :=
  py "import org.apache.spark.sql.DataFrame".

Definition import_line : str :=
  py "import org.apache.spark.sql.DataFrame" ++ [LF].

Definition brace_line : str := py "  }  " ++ [LF].

Definition trailing_brace_line : str := py "x = foo() }" ++ [LF].

Definition val_line : str := py "val x = null" ++ [LF].

Definition functions_import_line : str :=
  py "import org.apache.spark.sql.functions._" ++ [LF].

Definition scala_import_line : str :=
  py "import scala.collection.mutable.ListBuffer" ++ [LF].

Definition plain_line : str := py "x = y + 1" ++ [LF].

Definition val_brace_line : str := py "val }" ++ [LF].

Definition double_brace_line : str := py "}}" ++ [LF].

Definition plain_files : FileSystem :=
  fun _ => Some (py "x = y + 1" ++ [CR; LF] ++ py "z = x").


Definition job : ScalaToPyspark := {| scala_path := "Job.scala"%string |}.

Definition job_files : FileSystem :=
  fun path => if String.eqb path "Job.scala"%string then Some val_line
              else None.

(** Proof steps that recur: reassociating concatenations, and showing that
    a text is in the language of a pattern. *)
Ltac regroup := repeat rewrite <- app_assoc; reflexivity.

Ltac in_language :=
  repeat first [ apply matches_Seq | apply matches_Group | apply matches_Lit
               | apply matches_Star | apply matches_Plus ];
  auto.

(* ================================================================= *)
(** ** The literal scenarios, by evaluation *)

(** The character classes, code point by code point. *)
Example isspace_table :
  filter (fun n => isspace (ascii_of_nat n)) (seq 0 256)
  = [9; 10; 11; 12; 13; 28; 29; 30; 31; 32; 133; 160].
Proof. vm_compute. reflexivity. Qed.

Example is_word_table :
  filter (fun n => is_word (ascii_of_nat n)) (seq 0 256)
  = seq 48 10 ++ seq 65 26 ++ [95] ++ seq 97 26
    ++ [170; 178; 179; 181; 185; 186; 188; 189; 190]
    ++ seq 192 23 ++ seq 216 31 ++ seq 248 8.
Proof. vm_compute. reflexivity. Qed.

Example search_add :
  search signature_pattern add_line
  = Some [py "  "; py "add"; py "a: Int, b: Int"].
Proof. vm_compute. reflexivity. Qed.

(** Greedy repetition: the last opening parenthesis that a closing one
    follows, up to the last closing one. *)
Example search_nested :
  search signature_pattern (py "def f(g(x), y)" ++ [LF])
  = Some [py ""; py "f"; py "x), y"].
Proof. vm_compute. reflexivity. Qed.

(** [\s*] crosses a newline, [.*] does not. *)
Example search_two_lines :
  search signature_pattern (py "def a" ++ [LF] ++ py " def f(x)")
  = Some [[LF; " "%char]; py "f"; py "x"].
Proof. vm_compute. reflexivity. Qed.

(** The stages after the cleaner substitute inside the line it emits. *)
Example transform_def_col :
  transform [py "def col(a: Int)" ++ [LF]] = [py "def F.col(a):" ++ [LF]].
Proof. vm_compute. reflexivity. Qed.

Example readlines_crlf :
  readlines (py "a" ++ [CR; LF] ++ py "b" ++ [CR] ++ py "c")
  = [py "a" ++ [LF]; py "b" ++ [LF]; py "c"].
Proof. vm_compute. reflexivity. Qed.

Example transform_scenarios :
  transform [ py "package com.example.foo" ++ [LF];
              py "import org.apache.spark.sql.DataFrame" ++ [LF];
              py "import scala.collection.mutable.ListBuffer" ++ [LF];
              py "val x = 5" ++ [LF];
              py "  def add(a: Int, b: Int): Int = {" ++ [LF];
              py "if (x == null) col(" ++ [DQ] ++ py "y" ++ [DQ] ++ py ") else true" ++ [LF];
              py "  }  " ++ [LF];
              py "x = foo() }" ++ [LF] ]
  = [ dataframe_import;
      py "x = 5" ++ [LF];
      py "  def add(a, b):" ++ [LF];
      py "if (x == None) F.col(" ++ [DQ] ++ py "y" ++ [DQ] ++ py ") else True" ++ [LF];
      py "x = foo() }" ++ [LF] ].
Proof. vm_compute. reflexivity. Qed.

(* ================================================================= *)
(** ** Lemmas on the [str] methods *)

Lemma startswith_app (p r : str) : startswith (p ++ r) p = true.
Proof.
  induction p as [|a p IH]; simpl; [reflexivity|].
  rewrite Ascii.eqb_refl. exact IH.
Qed.

Lemma startswith_inv (s p : str) :
  startswith s p = true -> s = p ++ skipn (length p) s.
Proof.
  revert s. induction p as [|a p IH]; intros [|c s] H; simpl in *;
    try reflexivity; try discriminate.
  apply andb_true_iff in H as [H1 H2]. apply Ascii.eqb_eq in H1. subst c.
  f_equal. apply IH. exact H2.
Qed.

Lemma startswith_In (s : str) (a : ascii) (p : str) :
  startswith s (a :: p) = true -> In a s.
Proof.
  destruct s as [|c s]; simpl; [discriminate|].
  intros H. apply andb_true_iff in H as [H _].
  apply Ascii.eqb_eq in H. left. exact H.
Qed.

Lemma startswith_absent (s : str) (a : ascii) (p : str) :
  ~ In a s -> startswith s (a :: p) = false.
Proof.
  intros H. destruct (startswith s (a :: p)) eqn:E; [|reflexivity].
  apply startswith_In in E. contradiction.
Qed.

Lemma skipn_literal (p r : str) : skipn (length p) (p ++ r) = r.
Proof. induction p as [|a p IH]; simpl; [reflexivity | exact IH]. Qed.

Lemma forallb_dot (s : str) : forallb dot s = true <-> ~ In LF s.
Proof.
  induction s as [|c s IH]; simpl.
  - split; [intros _ [] | reflexivity].
  - unfold dot at 1. destruct (Ascii.eqb_spec c LF) as [->|N]; simpl.
    + split; [discriminate | intros H; exfalso; apply H; left; reflexivity].
    + rewrite IH. split.
      * intros H [E|E]; [congruence | contradiction].
      * intros H E. apply H. right. exact E.
Qed.

(** Two ways of cutting one text after a run of a class, each in front of a
    character outside the class, are the same cut. *)
Lemma run_unique (p : ascii -> bool) (m1 m2 : str) (c1 c2 : ascii) (r1 r2 : str) :
  m1 ++ c1 :: r1 = m2 ++ c2 :: r2 ->
  forallb p m1 = true -> forallb p m2 = true ->
  p c1 = false -> p c2 = false ->
  m1 = m2 /\ c1 :: r1 = c2 :: r2.
Proof.
  revert m2. induction m1 as [|a m1 IH]; intros [|b m2] E H1 H2 P1 P2;
    simpl in *.
  - split; [reflexivity | exact E].
  - injection E as -> _. apply andb_true_iff in H2 as [H2 _]. congruence.
  - injection E as -> _. apply andb_true_iff in H1 as [H1 _]. congruence.
  - injection E as -> E.
    apply andb_true_iff in H1 as [_ H1]. apply andb_true_iff in H2 as [_ H2].
    destruct (IH m2 E H1 H2 P1 P2) as [-> Er]. split; [reflexivity | exact Er].
Qed.

(** A character absent from the front part of a text occurs, if at all, in
    the back part. *)
Lemma cut_after_absent (c : ascii) (x rest b q : str) :
  x ++ rest = b ++ c :: q -> ~ In c x ->
  exists b', b = x ++ b' /\ rest = b' ++ c :: q.
Proof.
  revert b. induction x as [|a x IH]; intros b E N; simpl in *.
  - exists b. split; [reflexivity | exact E].
  - destruct b as [|d b]; simpl in E.
    + injection E as -> _. exfalso. apply N. left. reflexivity.
    + injection E as -> E.
      destruct (IH b E) as (b' & -> & Er).
      * intros I. apply N. right. exact I.
      * exists b'. split; [reflexivity | exact Er].
Qed.

Lemma leading_whitespace_lstrip (s : str) :
  s = leading_whitespace s ++ lstrip s.
Proof.
  induction s as [|c s IH]; simpl; [reflexivity|].
  destruct (isspace c); simpl; [f_equal; exact IH | reflexivity].
Qed.

Lemma leading_whitespace_spaces (s : str) :
  forallb isspace (leading_whitespace s) = true.
Proof.
  induction s as [|c s IH]; simpl; [reflexivity|].
  destruct (isspace c) eqn:E; simpl; [rewrite E; exact IH | reflexivity].
Qed.

Lemma lstrip_keeps (s : str) (c : ascii) :
  In c s -> isspace c = false -> In c (lstrip s).
Proof.
  induction s as [|a s IH]; simpl; [tauto|].
  intros [->|I] N.
  - rewrite N. left. reflexivity.
  - destruct (isspace a); [apply IH; assumption | right; exact I].
Qed.

Lemma strip_keeps (s : str) (c : ascii) :
  In c s -> isspace c = false -> In c (strip s).
Proof.
  intros I N. unfold strip, rstrip.
  apply -> in_rev. apply lstrip_keeps; [|exact N].
  apply -> in_rev. apply lstrip_keeps; assumption.
Qed.

Lemma word_token_spec (s : str) :
  exists rest, s = word_token s ++ rest
    /\ forallb is_word (word_token s) = true
    /\ (forall c r, rest = c :: r -> is_word c = false).
Proof.
  induction s as [|a s (rest & E & W & N)]; simpl.
  - exists []. repeat split. intros c r H. discriminate.
  - destruct (is_word a) eqn:Wa.
    + exists rest. simpl. rewrite Wa, W. repeat split; auto. f_equal. exact E.
    + exists (a :: s). repeat split. intros c r H. injection H as <- _. exact Wa.
Qed.

(* ================================================================= *)
(** ** The matcher: what greedy repetition finds *)

Section Star.
Context {A : Type}.
Variable p : ascii -> bool.

(** [c*] fails exactly when the continuation refuses every run. *)
Lemma star_none (s : str) (k : str -> str -> option A) :
  star p s k = None <->
  (forall m r, s = m ++ r -> forallb p m = true -> k m r = None).
Proof.
  revert k. induction s as [|c s IH]; intros k; simpl.
  - split.
    + intros H m r E _. symmetry in E. apply app_eq_nil in E as [-> ->].
      exact H.
    + intros H. apply (H [] []); reflexivity.
  - destruct (p c) eqn:Pc.
    + destruct (star p s (fun m rest => k (c :: m) rest)) eqn:E.
      * split; [discriminate|]. intros H. exfalso.
        assert (N : star p s (fun m rest => k (c :: m) rest) = None).
        { apply IH. intros m r Es Hm. apply H; simpl.
          - rewrite Es. reflexivity.
          - rewrite Pc. exact Hm. }
        congruence.
      * split.
        -- intros Hk m r Es Hm. destruct m as [|a m].
           ++ simpl in Es. subst r. exact Hk.
           ++ simpl in Es. injection Es as <- Es. simpl in Hm.
              apply andb_true_iff in Hm as [_ Hm].
              exact (proj1 (IH _) E m r Es Hm).
        -- intros H. apply (H [] (c :: s)); reflexivity.
    + split.
      * intros Hk m r Es Hm. destruct m as [|a m].
        -- simpl in Es. subst r. exact Hk.
        -- simpl in Es. injection Es as <- Es. simpl in Hm.
           rewrite Pc in Hm. discriminate.
      * intros H. apply (H [] (c :: s)); reflexivity.
Qed.

(** [c*] succeeds with the longest run the continuation accepts. *)
Lemma star_some (s : str) (k : str -> str -> option A) (x : A) :
  star p s k = Some x ->
  exists m r, s = m ++ r /\ forallb p m = true /\ k m r = Some x /\
    (forall m' r', s = m' ++ r' -> forallb p m' = true ->
                   length m < length m' -> k m' r' = None).
Proof.
  revert k. induction s as [|c s IH]; intros k; simpl; intros H.
  - exists [], []. repeat split; auto.
    intros m' r' E _ L. symmetry in E. apply app_eq_nil in E as [-> _].
    simpl in L. lia.
  - destruct (p c) eqn:Pc.
    + destruct (star p s (fun m rest => k (c :: m) rest)) eqn:E.
      * injection H as ->.
        apply IH in E as (m & r & Es & Hm & Hk & Hmax). subst s.
        exists (c :: m), r. simpl. rewrite Pc, Hm.
        repeat split; auto.
        intros m' r' E' Hm' L. destruct m' as [|a m']; [simpl in L; lia|].
        simpl in E'. injection E' as <- E'. simpl in Hm'.
        apply andb_true_iff in Hm' as [_ Hm'].
        apply (Hmax m' r'); auto. simpl in L. lia.
      * exists [], (c :: s). repeat split; auto.
        intros m' r' E' Hm' L. destruct m' as [|a m']; [simpl in L; lia|].
        simpl in E'. injection E' as <- E'. simpl in Hm'.
        apply andb_true_iff in Hm' as [_ Hm'].
        exact (proj1 (star_none _ _) E m' r' E' Hm').
    + exists [], (c :: s). repeat split; auto.
      intros m' r' E' Hm' L. destruct m' as [|a m']; [simpl in L; lia|].
      simpl in E'. injection E' as <- E'. simpl in Hm'.
      rewrite Pc in Hm'. discriminate.
Qed.
End Star.

(** The equations of [rmatch], one per constructor. *)

Lemma rmatch_seq {A} r1 r2 s g (k : str -> list str -> str -> option A) :
  rmatch (Seq r1 r2) s g k =
  rmatch r1 s g (fun m1 g1 s1 =>
    rmatch r2 s1 g1 (fun m2 g2 s2 => k (m1 ++ m2) g2 s2)).
Proof. reflexivity. Qed.

Lemma rmatch_group {A} r s g (k : str -> list str -> str -> option A) :
  rmatch (Group r) s g k = rmatch r s g (fun m g' rest => k m (g' ++ [m]) rest).
Proof. reflexivity. Qed.

Lemma rmatch_lit {A} t r g (k : str -> list str -> str -> option A) :
  rmatch (Lit t) (t ++ r) g k = k t g r.
Proof. simpl. rewrite startswith_app, skipn_literal. reflexivity. Qed.

Lemma rmatch_lit_some {A} t s g (k : str -> list str -> str -> option A) x :
  rmatch (Lit t) s g k = Some x ->
  exists r, s = t ++ r /\ k t g r = Some x.
Proof.
  simpl. destruct (startswith s t) eqn:E; [|discriminate].
  intros H. exists (skipn (length t) s). split; [|exact H].
  apply startswith_inv. exact E.
Qed.

Lemma rmatch_star_some {A} p s g (k : str -> list str -> str -> option A) x :
  rmatch (Star p) s g k = Some x ->
  exists m r, s = m ++ r /\ forallb p m = true /\ k m g r = Some x /\
    (forall m' r', s = m' ++ r' -> forallb p m' = true ->
                   length m < length m' -> k m' g r' = None).
Proof. simpl. intros H. apply star_some in H. exact H. Qed.

Lemma rmatch_plus_some {A} p s g (k : str -> list str -> str -> option A) x :
  rmatch (Plus p) s g k = Some x ->
  exists m r, s = m ++ r /\ m <> [] /\ forallb p m = true /\
    k m g r = Some x /\
    (forall m' r', s = m' ++ r' -> forallb p m' = true ->
                   length m < length m' -> k m' g r' = None).
Proof.
  simpl. destruct s as [|c s]; [discriminate|].
  destruct (p c) eqn:Pc; [|discriminate].
  intros H. apply star_some in H as (m & r & Es & Hm & Hk & Hmax). subst s.
  exists (c :: m), r. simpl. rewrite Pc, Hm.
  repeat split; auto; [discriminate|].
  intros m' r' E' Hm' L. destruct m' as [|a m']; [simpl in L; lia|].
  simpl in E'. injection E' as <- E'. simpl in Hm'.
  apply andb_true_iff in Hm' as [_ Hm'].
  apply (Hmax m' r'); auto. simpl in L. lia.
Qed.

(** Whenever some prefix of the subject is in the language of the pattern
    and the continuation accepts what follows it, the matcher returns a
    match (not necessarily that one). *)
Lemma rmatch_finds {A} r m :
  matches r m ->
  forall rest g (k : str -> list str -> str -> option A),
    (forall g', k m g' rest <> None) ->
    rmatch r (m ++ rest) g k <> None.
Proof.
  induction 1 as [t | p m Hm | p m Hne Hm | r m _ IH
                  | r1 r2 m1 m2 _ IH1 _ IH2]; intros rest g k Hk.
  - rewrite rmatch_lit. apply Hk.
  - simpl. intros N. apply (Hk g).
    exact (proj1 (star_none p _ _) N m rest eq_refl Hm).
  - destruct m as [|c m]; [congruence|]. simpl in Hm.
    apply andb_true_iff in Hm as [Pc Hm]. simpl. rewrite Pc.
    intros N. apply (Hk g).
    exact (proj1 (star_none p _ _) N m rest eq_refl Hm).
  - rewrite rmatch_group. apply IH. intros g'. apply Hk.
  - rewrite rmatch_seq, <- app_assoc. apply IH1. intros g1.
    apply IH2. intros g2. apply Hk.
Qed.

Lemma search_here r s m : match_here r s = Some m -> search r s = Some m.
Proof. intros H. destruct s; simpl; rewrite H; reflexivity. Qed.

Lemma search_some r s m :
  search r s = Some m ->
  exists pre t, s = pre ++ t /\ match_here r t = Some m.
Proof.
  induction s as [|c s IH]; simpl.
  - destruct (match_here r []) eqn:E; [|discriminate].
    intros H. exists [], []. split; [reflexivity | congruence].
  - destruct (match_here r (c :: s)) eqn:E.
    + intros H. exists [], (c :: s). split; [reflexivity | congruence].
    + intros H. destruct (IH H) as (pre & t & -> & Ht).
      exists (c :: pre), t. split; [reflexivity | exact Ht].
Qed.

(* ================================================================= *)
(** ** The signature pattern *)

Lemma class_absent (p : ascii -> bool) (c : ascii) (m : str) :
  forallb p m = true -> p c = false -> ~ In c m.
Proof.
  intros H N I. rewrite forallb_forall in H. rewrite (H c I) in N.
  discriminate.
Qed.

Lemma rmatch_finds_eq {A} r m s rest g
      (k : str -> list str -> str -> option A) :
  matches r m -> s = m ++ rest ->
  (forall g', k m g' rest <> None) ->
  rmatch r s g k <> None.
Proof. intros M -> Hk. apply rmatch_finds; assumption. Qed.

(** What an anchored match of the signature pattern says about the text. *)
Lemma match_here_signature (s : str) (m : Match) :
  match_here signature_pattern s = Some m ->
  exists ws name mid args post,
    m = [ws; name; args]
    /\ signature_cut s ws name mid args post
    /\ greedy_cut mid args post.
Proof.
  unfold match_here, signature_pattern. intros H.
  rewrite rmatch_seq, rmatch_group in H.
  apply rmatch_star_some in H as (ws & r1 & E1 & Hws & H & _).
  cbn beta in H. rewrite rmatch_seq in H.
  apply rmatch_lit_some in H as (r2 & E2 & H).
  cbn beta in H. rewrite rmatch_seq, rmatch_group in H.
  apply rmatch_plus_some in H as (name & r3 & E3 & Hne & Hname & H & Xname).
  cbn beta in H. rewrite rmatch_seq in H.
  apply rmatch_star_some in H as (mid & r4 & E4 & Hmid & H & Xmid).
  cbn beta in H. rewrite rmatch_seq in H.
  apply rmatch_lit_some in H as (r5 & E5 & H).
  cbn beta in H. rewrite rmatch_seq, rmatch_group in H.
  apply rmatch_star_some in H as (args & r6 & E6 & Hargs & H & Xargs).
  cbn beta in H.
  apply rmatch_lit_some in H as (post & E7 & H).
  injection H as <-. subst s r1 r2 r3 r4 r5 r6.
  exists ws, name, mid, args, post.
  split; [reflexivity|]. split; [repeat split; assumption|].
  split; [|split].
  - (* a longer name would have been taken *)
    intros c r -> . destruct (is_word c) eqn:W; [exfalso|reflexivity].
    refine (_ (Xname (name ++ [c])
                 (r ++ py "(" ++ args ++ py ")" ++ post) _ _ _)).
    + cbn beta.
      apply rmatch_finds_eq
        with (m := r ++ py "(" ++ args ++ py ")") (rest := post).
      * simpl in Hmid. apply andb_true_iff in Hmid as [_ Hmid]. in_language.
      * regroup.
      * intros g'. cbn beta. discriminate.
    + rewrite <- app_assoc. reflexivity.
    + rewrite forallb_app, Hname. simpl. rewrite W. reflexivity.
    + rewrite length_app. simpl. lia.
  - (* a later opening parenthesis would have been taken *)
    intros I. apply in_split in I as (a1 & a2 & ->).
    rewrite forallb_app in Hargs. apply andb_true_iff in Hargs as [Ha1 Ha2].
    simpl in Ha2.
    refine (_ (Xmid (mid ++ py "(" ++ a1)
                 (py "(" ++ a2 ++ py ")" ++ post) _ _ _)).
    + cbn beta. rewrite rmatch_seq, rmatch_lit. cbn beta.
      rewrite rmatch_seq, rmatch_group.
      apply rmatch_finds_eq with (m := a2) (rest := py ")" ++ post).
      * in_language.
      * reflexivity.
      * intros g'. cbn beta. rewrite rmatch_lit. discriminate.
    + simpl. regroup.
    + rewrite forallb_app, Hmid. simpl. exact Ha1.
    + rewrite length_app. simpl. lia.
  - (* a later closing parenthesis would have been taken *)
    intros p1 p2 -> . destruct (forallb dot p1) eqn:D; [exfalso|reflexivity].
    refine (_ (Xargs (args ++ py ")" ++ p1) (py ")" ++ p2) _ _ _)).
    + cbn beta. rewrite rmatch_lit. discriminate.
    + regroup.
    + rewrite forallb_app, Hargs. simpl. exact D.
    + rewrite length_app. simpl. lia.
Qed.

(** Every text that can be cut is matched by the anchored pattern. *)
Lemma match_here_finds (s ws name mid args post : str) :
  signature_cut s ws name mid args post ->
  match_here signature_pattern s <> None.
Proof.
  intros (-> & Hws & Hne & Hname & Hmid & Hargs).
  unfold match_here, signature_pattern.
  apply rmatch_finds_eq
    with (m := ws ++ py "def " ++ name ++ mid ++ py "(" ++ args ++ py ")")
         (rest := post).
  - in_language.
  - regroup.
  - intros g'. discriminate.
Qed.

(* ================================================================= *)
(** ** [split], [join] and [clean_args] *)

Lemma startswith_app_mono (b r sep : str) :
  startswith b sep = true -> startswith (b ++ r) sep = true.
Proof.
  revert b. induction sep as [|a sep IH]; intros [|c b] H; simpl in *;
    try reflexivity; try discriminate.
  apply andb_true_iff in H as [H1 H2]. rewrite H1. simpl. apply IH. exact H2.
Qed.

Lemma contains_false (c : ascii) (s sep : str) :
  contains (c :: s) sep = false ->
  startswith (c :: s) sep = false /\ contains s sep = false.
Proof. simpl. intros H. apply orb_false_iff in H. exact H. Qed.

Lemma contains_prefix (b r sep : str) :
  contains (b ++ r) sep = false -> contains b sep = false.
Proof.
  induction b as [|c b IH]; intros H.
  - simpl. rewrite orb_false_r.
    destruct (startswith [] sep) eqn:E; [|reflexivity].
    apply (startswith_app_mono [] r) in E. simpl in E.
    destruct r; simpl in H; apply orb_false_iff in H as [H _]; congruence.
  - simpl in H. apply orb_false_iff in H as [H1 H2].
    simpl. apply orb_false_iff. split; [|apply IH; exact H2].
    destruct (startswith (c :: b) sep) eqn:E; [|reflexivity].
    apply (startswith_app_mono (c :: b) r) in E. simpl in E. congruence.
Qed.

Lemma before_first_prefix (sep s : str) :
  exists r, s = before_first sep s ++ r.
Proof.
  induction s as [|c s (r & E)]; simpl.
  - destruct (startswith [] sep); exists []; reflexivity.
  - destruct (startswith (c :: s) sep).
    + exists (c :: s). reflexivity.
    + exists r. simpl. f_equal. exact E.
Qed.

Lemma before_first_In (sep s : str) (c : ascii) :
  In c (before_first sep s) -> In c s.
Proof.
  destruct (before_first_prefix sep s) as (r & E). intros I.
  rewrite E. apply in_or_app. left. exact I.
Qed.

Lemma before_first_id (sep s : str) :
  contains s sep = false -> before_first sep s = s.
Proof.
  induction s as [|c s IH]; intros H.
  - simpl. destruct (startswith [] sep); reflexivity.
  - apply contains_false in H as [H1 H2].
    simpl before_first. rewrite H1. f_equal. apply IH. exact H2.
Qed.

Lemma before_first_clean (sep s : str) :
  sep <> [] -> contains (before_first sep s) sep = false.
Proof.
  intros Hs. induction s as [|c s IH]; simpl before_first.
  - destruct sep; [congruence|]. destruct (startswith [] (a :: sep)); reflexivity.
  - destruct (startswith (c :: s) sep) eqn:E.
    + destruct sep; [congruence | reflexivity].
    + simpl contains. apply orb_false_iff. split; [|exact IH].
      destruct (before_first_prefix sep s) as (r & Er).
      destruct (startswith (c :: before_first sep s) sep) eqn:E'; [|reflexivity].
      apply (startswith_app_mono _ r) in E'. simpl app in E'.
      rewrite <- Er in E'. congruence.
Qed.

Lemma split_from_nonempty (sep : str) (k : nat) (s : str) :
  split_from sep k s <> [].
Proof.
  revert k. induction s as [|c s IH]; intros k; simpl; [discriminate|].
  destruct k; [|apply IH].
  destruct (startswith (c :: s) sep); [discriminate|].
  destruct (split_from sep 0 s); discriminate.
Qed.

Lemma split_from_skip (sep pre s : str) :
  split_from sep (length pre) (pre ++ s) = split_from sep 0 s.
Proof. induction pre as [|c pre IH]; simpl; [reflexivity | exact IH]. Qed.

Lemma split_sep (sep s : str) :
  sep <> [] -> split (sep ++ s) sep = [] :: split s sep.
Proof.
  destruct sep as [|a sep]; [congruence|]. intros _.
  unfold split. simpl app. simpl split_from.
  rewrite Ascii.eqb_refl, startswith_app. simpl. rewrite Nat.sub_0_r.
  rewrite split_from_skip. reflexivity.
Qed.

Lemma split_step (sep : str) (c : ascii) (s : str) :
  startswith (c :: s) sep = false ->
  split (c :: s) sep = cons_field c (split s sep).
Proof. unfold split. intros H. simpl split_from. rewrite H. reflexivity. Qed.

(** [a.split(sep)[0]] is the part of [a] before the first [sep]. *)
Lemma first_field_split (s sep : str) :
  first_field (split s sep) = before_first sep s.
Proof.
  induction s as [|c s IH].
  - simpl. destruct (startswith [] sep); reflexivity.
  - unfold split. simpl split_from. simpl before_first.
    destruct (startswith (c :: s) sep); [reflexivity|].
    fold (split s sep). rewrite <- IH.
    pose proof (split_from_nonempty sep 0 s) as N. unfold split.
    destruct (split_from sep 0 s); [congruence | reflexivity].
Qed.

Lemma split_absent (s sep : str) :
  contains s sep = false -> split s sep = [s].
Proof.
  induction s as [|c s IH]; intros H; [reflexivity|].
  apply contains_false in H as [H1 H2].
  rewrite split_step, IH by assumption. reflexivity.
Qed.

(** No field of a split holds the separator, and every character of a field
    comes from the text. *)
Lemma split_from_fields (sep : str) (k : nat) (s f : str) :
  sep <> [] -> In f (split_from sep k s) ->
  contains f sep = false /\ (forall c, In c f -> In c s).
Proof.
  intros Hs. revert k f. induction s as [|c s IH]; intros k f; simpl.
  - intros [<-|[]]. split; [|tauto].
    destruct sep; [congruence | reflexivity].
  - destruct k as [|k].
    + destruct (startswith (c :: s) sep) eqn:E.
      * intros [<-|I].
        -- split; [|intros x []]. destruct sep; [congruence | reflexivity].
        -- destruct (IH _ _ I) as [C S]. split; [exact C|].
           intros x Ix. right. apply S. exact Ix.
      * pose proof (first_field_split s sep) as F. unfold split in F.
        destruct (split_from sep 0 s) as [|h t] eqn:Es;
          [exfalso; exact (split_from_nonempty _ _ _ Es)|].
        simpl in F. simpl. intros [<-|I].
        -- destruct (IH 0 h) as [C S]; [rewrite Es; left; reflexivity|].
           split.
           ++ simpl. apply orb_false_iff. split; [|exact C].
              destruct (before_first_prefix sep s) as (r & Er).
              destruct (startswith (c :: h) sep) eqn:E'; [|reflexivity].
              apply (startswith_app_mono _ r) in E'. simpl app in E'.
              rewrite F, <- Er in E'. congruence.
           ++ intros x [->|Ix]; [left; reflexivity | right; apply S; exact Ix].
        -- destruct (IH 0 f) as [C S]; [rewrite Es; right; exact I|].
           split; [exact C|]. intros x Ix. right. apply S. exact Ix.
    + intros I. destruct (IH _ _ I) as [C S]. split; [exact C|].
      intros x Ix. right. apply S. exact Ix.
Qed.

(** A field without the separator, then the separator: [split] cuts there.
    The separators of the rewriter are two different characters. *)
Lemma split_app_sep (a b : ascii) (x r : str) :
  a <> b -> contains x [a; b] = false ->
  split (x ++ [a; b] ++ r) [a; b] = x :: split r [a; b].
Proof.
  intros Hab. induction x as [|c x IH]; intros H.
  - apply (split_sep [a; b] r). discriminate.
  - apply contains_false in H as [H1 H2].
    change ((c :: x) ++ [a; b] ++ r) with (c :: x ++ [a; b] ++ r).
    rewrite split_step.
    + rewrite IH by exact H2. reflexivity.
    + destruct x as [|d x]; simpl in *.
      * destruct (Ascii.eqb_spec a b); [contradiction|].
        rewrite andb_false_r. reflexivity.
      * exact H1.
Qed.

Lemma split_join (a b : ascii) (fs : list str) :
  a <> b -> fs <> [] ->
  (forall f, In f fs -> contains f [a; b] = false) ->
  split (join [a; b] fs) [a; b] = fs.
Proof.
  intros Hab. induction fs as [|x fs IH]; intros Hne H; [congruence|].
  destruct fs as [|y fs].
  - simpl. apply split_absent. apply H. left. reflexivity.
  - change (join [a; b] (x :: y :: fs)) with (x ++ [a; b] ++ join [a; b] (y :: fs)).
    rewrite split_app_sep; [|exact Hab | apply H; left; reflexivity].
    rewrite IH; [reflexivity | discriminate |].
    intros f I. apply H. right. exact I.
Qed.

Lemma join_In (sep : str) (fs : list str) (c : ascii) :
  In c (join sep fs) -> In c sep \/ exists f, In f fs /\ In c f.
Proof.
  induction fs as [|x fs IH]; [intros []|].
  destruct fs as [|y fs].
  - simpl. intros I. right. exists x. split; [left; reflexivity | exact I].
  - change (join sep (x :: y :: fs)) with (x ++ sep ++ join sep (y :: fs)).
    intros I. apply in_app_or in I as [I|I].
    + right. exists x. split; [left; reflexivity | exact I].
    + apply in_app_or in I as [I|I]; [left; exact I|].
      destruct (IH I) as [S|(f & If & Ic)]; [left; exact S|].
      right. exists f. split; [right; exact If | exact Ic].
Qed.

(** [clean_args] in the words of its description: split on [", "], keep of
    each entry what comes before the first [": "], join with [", "]. *)
Lemma clean_args_before_first (args : str) :
  clean_args args =
  join (py ", ") (map (before_first (py ": ")) (split args (py ", "))).
Proof.
  unfold clean_args. f_equal. apply map_ext. intros a.
  apply first_field_split.
Qed.

(** [clean_args] adds no character but those of [", "] ... *)
Lemma clean_args_In (args : str) (c : ascii) :
  In c (clean_args args) -> In c (py ", ") \/ In c args.
Proof.
  rewrite clean_args_before_first. intros I.
  apply join_In in I as [I|(f & If & Ic)]; [left; exact I|]. right.
  apply in_map_iff in If as (a & <- & Ia).
  apply before_first_In in Ic.
  destruct (split_from_fields (py ", ") 0 args a) as [_ S];
    [discriminate | exact Ia | apply S; exact Ic].
Qed.

(** ... and cleaning what is already clean changes nothing. *)
Lemma clean_args_idempotent (args : str) :
  clean_args (clean_args args) = clean_args args.
Proof.
  rewrite !clean_args_before_first.
  set (ps := map (before_first (py ": ")) (split args (py ", "))).
  assert (Hps : forall p, In p ps ->
            contains p (py ", ") = false /\ contains p (py ": ") = false).
  { intros p I. apply in_map_iff in I as (a & <- & Ia). split.
    - destruct (split_from_fields (py ", ") 0 args a) as [C _];
        [discriminate | exact Ia |].
      destruct (before_first_prefix (py ": ") a) as (r & Er).
      rewrite Er in C. apply contains_prefix in C. exact C.
    - apply before_first_clean. discriminate. }
  change (py ", ") with [","%char; " "%char] at 2.
  rewrite split_join.
  - f_equal. rewrite <- (map_id ps) at 2. apply map_ext_in.
    intros p I. apply before_first_id. apply Hps. exact I.
  - discriminate.
  - subst ps. unfold split.
    pose proof (split_from_nonempty (py ", ") 0 args) as N.
    destruct (split_from (py ", ") 0 args); [congruence | discriminate].
  - intros f I. apply Hps. exact I.
Qed.

(* ================================================================= *)
(** ** The signature cleaner on the lines it emits *)

Lemma open_paren_not_word : is_word "("%char = false.
Proof. reflexivity. Qed.

Lemma d_not_space : isspace "d"%char = false.
Proof. reflexivity. Qed.

(** The text after the name starts outside [\w]. *)
Lemma greedy_head (mid x : str) :
  (forall c r, mid = c :: r -> is_word c = false) ->
  exists c r, mid ++ py "(" ++ x = c :: r /\ is_word c = false.
Proof.
  intros G. destruct mid as [|c mid].
  - exists "("%char, x. split; reflexivity.
  - exists c, (mid ++ py "(" ++ x). split; [reflexivity|].
    apply (G c mid). reflexivity.
Qed.

(** The whitespace and the name of a cut are determined by the text. *)
Lemma cut_head_unique (ws ws' name name' rest rest' : str) :
  ws ++ py "def " ++ name ++ rest = ws' ++ py "def " ++ name' ++ rest' ->
  forallb isspace ws = true -> forallb isspace ws' = true ->
  forallb is_word name = true -> forallb is_word name' = true ->
  (exists c r, rest = c :: r /\ is_word c = false) ->
  (exists c r, rest' = c :: r /\ is_word c = false) ->
  ws = ws' /\ name = name' /\ rest = rest'.
Proof.
  intros E Hws Hws' Hn Hn' (c & r & -> & Hc) (c' & r' & -> & Hc').
  simpl in E.
  apply run_unique with (p := isspace) in E as [-> E];
    auto using d_not_space.
  injection E as E.
  apply run_unique with (p := is_word) in E as [-> E]; auto.
Qed.

Lemma cleaned_line_match (ws name a : str) :
  forallb isspace ws = true -> name <> [] -> forallb is_word name = true ->
  ~ In LF a -> ~ In "("%char a ->
  match_here signature_pattern
    (ws ++ py "def " ++ name ++ py "(" ++ a ++ py "):" ++ [LF])
  = Some [ws; name; a].
Proof.
  intros Hws Hne Hname Hlf Hpar.
  set (o := ws ++ py "def " ++ name ++ py "(" ++ a ++ py "):" ++ [LF]).
  assert (C : signature_cut o ws name [] a [":"%char; LF]).
  { repeat split; auto. apply forallb_dot. exact Hlf. }
  destruct (match_here signature_pattern o) as [m|] eqn:E;
    [|exfalso; exact (match_here_finds _ _ _ _ _ _ C E)].
  apply match_here_signature in E
    as (ws' & name' & mid' & args' & post' & -> & C' & G1 & G2 & G3).
  destruct C' as (Eo & Hws' & Hne' & Hname' & Hmid' & Hargs').
  unfold o in Eo.
  apply cut_head_unique in Eo as (<- & <- & Eo); auto.
  2:{ exists "("%char, (a ++ py "):" ++ [LF]). split; reflexivity. }
  2:{ apply greedy_head. exact G1. }
  destruct mid' as [|c mid'].
  - simpl in Eo. injection Eo as Eo.
    apply app_eq_app in Eo as (l & [[Ea Ep] | [Ea Ep]]).
    + destruct l as [|x l].
      * rewrite app_nil_r in Ea. subst a. reflexivity.
      * exfalso. simpl in Ep. injection Ep as <- Ep.
        pose proof (G3 l [":"%char; LF] Ep) as D.
        assert (D' : forallb dot a = true) by (apply forallb_dot; exact Hlf).
        rewrite Ea, forallb_app in D'. simpl in D'.
        rewrite D, !andb_false_r in D'. discriminate.
    + destruct l as [|x l].
      * rewrite app_nil_r in Ea. subst args'. reflexivity.
      * exfalso. simpl in Ep. injection Ep as <- Ep.
        destruct l as [|y [|z [|w l]]]; simpl in Ep; discriminate.
  - exfalso. simpl in Eo. injection Eo as <- Eo.
    assert (I : In "("%char (a ++ ")"%char :: ":"%char :: [LF])).
    { simpl. rewrite Eo. apply in_or_app. right. left. reflexivity. }
    apply in_app_or in I as [I|I]; [exact (Hpar I)|].
    simpl in I. destruct I as [I|[I|[I|[]]]]; discriminate.
Qed.

(** What the cleaner returns on a line the pattern matches. *)
Lemma clean_function_definition_some (s : str) (m : Match) :
  search signature_pattern s = Some m ->
  exists pre ws name mid args post,
    m = [ws; name; args]
    /\ signature_cut (skipn (length pre) s) ws name mid args post
    /\ greedy_cut mid args post
    /\ s = pre ++ skipn (length pre) s
    /\ clean_function_definition s =
       ws ++ py "def " ++ name ++ py "(" ++ clean_args args ++ py "):" ++ [LF].
Proof.
  intros H. unfold clean_function_definition. rewrite H.
  apply search_some in H as (pre & t & -> & H).
  apply match_here_signature in H
    as (ws & name & mid & args & post & -> & C & G).
  exists pre, ws, name, mid, args, post.
  rewrite skipn_literal. repeat split; try apply C; try apply G.
Qed.


(* ================================================================= *)
(** ** The pipeline, line by line *)

Lemma transform_stages (result : list str) :
  transform result = fold_left (fun r stage => stage r) stages result.
Proof. reflexivity. Qed.

Lemma transform_app (xs ys : list str) :
  transform (xs ++ ys) = transform xs ++ transform ys.
Proof.
  unfold transform, remove_package, replace_dataframe_import,
    replace_functions_import, remove_scala_imports, remove_val, remove_var,
    remove_closing_braces, clean_definitions, prefix_col, replace_null,
    replace_true, replace_false.
  cbv zeta. repeat (rewrite filter_app || rewrite map_app). reflexivity.
Qed.

Lemma transform_middle (xs : list str) (l : str) (ys : list str) :
  transform (xs ++ l :: ys) = transform xs ++ transform [l] ++ transform ys.
Proof.
  change (l :: ys) with ([l] ++ ys). rewrite !transform_app. reflexivity.
Qed.

Lemma transform_dropped (xs : list str) (l : str) (ys : list str) :
  transform [l] = [] -> transform (xs ++ l :: ys) = transform (xs ++ ys).
Proof.
  intros H. rewrite transform_middle, H, transform_app. reflexivity.
Qed.

Lemma str_eqb_eq (a b : str) : str_eqb a b = true <-> a = b.
Proof.
  unfold str_eqb. destruct (list_eq_dec ascii_dec a b); split;
    congruence.
Qed.

Lemma replace_absent (s : str) (a : ascii) (old new : str) :
  ~ In a s -> replace s (a :: old) new = s.
Proof.
  unfold replace. induction s as [|c s IH]; intros N; [reflexivity|].
  simpl. destruct (Ascii.eqb_spec c a) as [->|Hca];
    [exfalso; apply N; left; reflexivity|].
  simpl. f_equal. apply IH. intros I. apply N. right. exact I.
Qed.

Lemma one_line_front (u : str) (c : ascii) (v : str) :
  one_line (u ++ c :: v) = true -> forallb dot u = true.
Proof.
  unfold one_line. rewrite removelast_app by discriminate.
  rewrite forallb_app. intros H. apply andb_true_iff in H as [H _]. exact H.
Qed.

(** A line that strips to a closing brace holds whitespace and that brace
    only. *)
Lemma strip_brace (l : str) (c : ascii) :
  strip l = py "}" -> In c l -> isspace c = true \/ c = "}"%char.
Proof.
  unfold strip, rstrip. intros H I.
  apply (f_equal (@rev ascii)) in H. rewrite rev_involutive in H.
  simpl in H.
  rewrite (leading_whitespace_lstrip l) in I.
  apply in_app_or in I as [I|I].
  - left. exact (proj1 (forallb_forall _ _) (leading_whitespace_spaces l) c I).
  - apply in_rev in I.
    rewrite (leading_whitespace_lstrip (rev (lstrip l))), H in I.
    apply in_app_or in I as [I|I].
    + left. exact (proj1 (forallb_forall _ _)
                     (leading_whitespace_spaces (rev (lstrip l))) c I).
    + right. destruct I as [<-|[]]. reflexivity.
Qed.

(** Every line [readlines] returns is one line and is not empty. *)
Lemma split_lines_one_line (s l : str) :
  In l (split_lines s) -> one_line l = true /\ l <> [].
Proof.
  revert l. induction s as [|c s IH]; intros l; simpl; [intros []|].
  destruct (Ascii.eqb_spec c LF) as [->|N].
  - intros [<-|I]; [split; [reflexivity | discriminate] | apply IH; exact I].
  - destruct (split_lines s) as [|h t] eqn:E; simpl.
    + intros [<-|[]]. split; [reflexivity | discriminate].
    + intros [<-|I]; [|apply IH; right; exact I].
      destruct (IH h (or_introl eq_refl)) as [O Hne].
      split; [|discriminate].
      unfold one_line in *. destruct h as [|d h]; [congruence|].
      change (removelast (c :: d :: h)) with (c :: removelast (d :: h)).
      change (forallb dot (c :: removelast (d :: h)))
        with (dot c && forallb dot (removelast (d :: h))).
      rewrite O. unfold dot.
      destruct (Ascii.eqb_spec c LF); [contradiction | reflexivity].
Qed.

Lemma readlines_one_line (text l : str) :
  In l (readlines text) -> one_line l = true /\ l <> [].
Proof. apply split_lines_one_line. Qed.

(* ================================================================= *)
(** ** Properties of the signature cleaner *)

(** C1 (amended).  A line read from the file whose left-trimmed text begins
    with [def ] and a word character, and on which the signature pattern
    matches, is replaced by the signature-cleaning stage with exactly
    [{indent}def {name}({cleaned_args}):\n]: [indent] is the leading
    whitespace of the line, [name] the word token after [def ], and
    [cleaned_args] the raw parameter text split on [", "], each entry cut
    before its first [": "], joined with [", "].  The line
    [  def add(a: Int, b: Int): Int = {] goes through the whole pipeline to
    [  def add(a, b):\n]. *)
Theorem signature_cleaner_output :
  (forall (l : str) (c : ascii) (tl : str),
      lstrip l = py "def " ++ c :: tl ->
      is_word c = true ->
      one_line l = true ->
      search signature_pattern l <> None ->
      exists args,
        search signature_pattern l
        = Some [leading_whitespace l; word_token (c :: tl); args]
        /\ clean_definitions [l]
           = [ leading_whitespace l ++ py "def " ++ word_token (c :: tl)
               ++ py "("
               ++ join (py ", ")
                    (map (before_first (py ": ")) (split args (py ", ")))
               ++ py "):" ++ [LF] ])
  /\ transform [add_line] = [py "  def add(a, b):" ++ [LF]]
  /\ transform [py "  def add(a: Int, b: Int): Int = {"]
     = [py "  def add(a, b):" ++ [LF]].
Proof.
  split; [|split; vm_compute; reflexivity].
  intros l c tl Hl Wc Hone Hs.
  pose proof (leading_whitespace_lstrip l) as El. rewrite Hl in El.
  pose proof (leading_whitespace_spaces l) as Hws.
  set (ws := leading_whitespace l) in *.
  destruct (word_token_spec (c :: tl)) as (rest & Et & Hname & Hrest).
  set (name := word_token (c :: tl)) in *.
  assert (Hne : name <> []).
  { unfold name. simpl. rewrite Wc. discriminate. }
  (* the pattern matches somewhere, so a parenthesis pair follows the name *)
  destruct (search signature_pattern l) as [m0|] eqn:E0; [|congruence].
  destruct (clean_function_definition_some _ _ E0)
    as (pre & ws0 & name0 & mid0 & args0 & post0 & _ & C0 & _ & Epre & _).
  destruct C0 as (E0' & _ & _ & _ & _ & _). rewrite E0' in Epre.
  assert (Ecut : (ws ++ py "def " ++ name) ++ rest
                 = (pre ++ ws0 ++ py "def " ++ name0 ++ mid0)
                   ++ "("%char :: args0 ++ py ")" ++ post0).
  { rewrite <- !app_assoc, <- Et, <- El, Epre at 1.
    repeat rewrite <- app_assoc. reflexivity. }
  apply cut_after_absent in Ecut as (b' & _ & Erest).
  2:{ intros I. apply in_app_or in I as [I|I].
      - exact (class_absent isspace "("%char ws Hws eq_refl I).
      - apply in_app_or in I as [I|I].
        + simpl in I. destruct I as [I|[I|[I|[I|[]]]]]; discriminate.
        + exact (class_absent _ _ _ Hname open_paren_not_word I). }
  assert (Edec : l = ws ++ py "def " ++ name ++ b' ++ py "(" ++ args0
                       ++ py ")" ++ post0).
  { rewrite El, Et, Erest. repeat rewrite <- app_assoc. reflexivity. }
  assert (Hdot : forallb dot (b' ++ py "(" ++ args0) = true).
  { assert (O : one_line ((ws ++ py "def " ++ name ++ b' ++ py "(" ++ args0)
                           ++ ")"%char :: post0) = true).
    { replace ((ws ++ py "def " ++ name ++ b' ++ py "(" ++ args0)
               ++ ")"%char :: post0) with l; [exact Hone|].
      etransitivity; [exact Edec|]. repeat rewrite <- app_assoc.
      reflexivity. }
    apply one_line_front in O. rewrite !forallb_app in O.
    apply andb_true_iff in O as [_ O]. apply andb_true_iff in O as [_ O].
    apply andb_true_iff in O as [_ O]. rewrite forallb_app. exact O. }
  rewrite forallb_app in Hdot. apply andb_true_iff in Hdot as [Hb' Hargs0].
  simpl in Hargs0.
  assert (C : signature_cut l ws name b' args0 post0).
  { repeat split; auto. }
  (* hence it matches at the start of the line *)
  destruct (match_here signature_pattern l) as [m|] eqn:E;
    [|exfalso; exact (match_here_finds _ _ _ _ _ _ C E)].
  pose proof (search_here _ _ _ E) as S.
  apply match_here_signature in E
    as (ws' & name' & mid' & args' & post' & -> & C' & G1 & _ & _).
  destruct C' as (E' & Hws' & _ & Hname' & _ & _).
  rewrite Edec in E' at 1.
  apply cut_head_unique in E' as (<- & <- & _); auto.
  2:{ apply greedy_head. intros x r Ex. apply (Hrest x (r ++ py "(" ++ args0
        ++ py ")" ++ post0)). rewrite Erest, Ex. reflexivity. }
  2:{ apply greedy_head. exact G1. }
  rewrite E0 in S. injection S as ->.
  exists args'. split; [reflexivity|].
  unfold clean_definitions. cbn [map]. rewrite Hl.
  change (startswith (py "def " ++ c :: tl) (py "def")) with true.
  cbv iota. unfold clean_function_definition. rewrite E0.
  unfold group. cbn [nth Nat.sub]. rewrite clean_args_before_first.
  reflexivity.
Qed.

Lemma signature_cleaner_output_witness :
  exists args,
    search signature_pattern add_line
    = Some [leading_whitespace add_line;
            word_token (py "add(a: Int, b: Int): Int = {" ++ [LF]); args]
    /\ clean_definitions [add_line]
       = [ leading_whitespace add_line ++ py "def "
           ++ word_token (py "add(a: Int, b: Int): Int = {" ++ [LF])
           ++ py "("
           ++ join (py ", ")
                (map (before_first (py ": ")) (split args (py ", ")))
           ++ py "):" ++ [LF] ].
Proof.
  apply (proj1 signature_cleaner_output add_line
           "a"%char (py "dd(a: Int, b: Int): Int = {" ++ [LF])).
  - reflexivity.
  - reflexivity.
  - reflexivity.
  - vm_compute. discriminate.
Defined.

(** C1, as stated, fails on a line that begins with [def] without beginning
    with the keyword and a name: the pattern matches further right, and
    neither the indentation nor the start of the line is kept. *)
Lemma signature_cleaner_output_counterexample :
  readlines defs_line = [defs_line]
  /\ startswith (lstrip defs_line) (py "def") = true
  /\ search signature_pattern defs_line <> None
  /\ leading_whitespace defs_line = []
  /\ clean_definitions [defs_line] = [py " def f(a):" ++ [LF]]
  /\ transform [defs_line] = [py " def f(a):" ++ [LF]]
  /\ ~ (exists name cleaned_args,
          clean_definitions [defs_line]
          = [leading_whitespace defs_line ++ py "def " ++ name ++ py "("
             ++ cleaned_args ++ py "):" ++ [LF]]).
Proof.
  repeat split; try (vm_compute; reflexivity).
  - vm_compute. discriminate.
  - intros (name & cleaned_args & H). vm_compute in H. discriminate.
Qed.

(** C2 (amended).  On every line read from the file on which the signature
    pattern matches, the raw parameter text handed to [clean_args] is the
    text between the last closing parenthesis of the line and the last
    opening parenthesis before it: it holds no opening parenthesis and no
    newline, and no closing parenthesis follows it on the line. *)
Theorem raw_parameter_text :
  forall (l : str) (m : Match),
    search signature_pattern l = Some m ->
    one_line l = true ->
    exists pre ws name mid args post,
      m = [ws; name; args]
      /\ l = pre ++ ws ++ py "def " ++ name ++ mid
               ++ py "(" ++ args ++ py ")" ++ post
      /\ ~ In "("%char args
      /\ ~ In LF args
      /\ ~ In ")"%char post
      /\ clean_function_definition l
         = ws ++ py "def " ++ name ++ py "(" ++ clean_args args
              ++ py "):" ++ [LF].
Proof.
  intros l m H Hone.
  apply clean_function_definition_some in H
    as (pre & ws & name & mid & args & post & -> & C & G & Epre & Hout).
  destruct C as (E & _ & _ & _ & _ & Hargs). destruct G as (_ & Hpar & Hpost).
  rewrite E in Epre.
  exists pre, ws, name, mid, args, post.
  repeat split; auto.
  - apply forallb_dot. exact Hargs.
  - intros I. apply in_split in I as (p1 & p2 & Ep).
    pose proof (Hpost p1 p2 Ep) as D.
    assert (O : one_line ((pre ++ ws ++ py "def " ++ name ++ mid ++ py "("
                            ++ args ++ py ")" ++ p1) ++ ")"%char :: p2)
                = true).
    { replace ((pre ++ ws ++ py "def " ++ name ++ mid ++ py "(" ++ args
                  ++ py ")" ++ p1) ++ ")"%char :: p2) with l;
        [exact Hone|].
      etransitivity; [exact Epre|]. rewrite Ep.
      repeat rewrite <- app_assoc. reflexivity. }
    apply one_line_front in O. rewrite !forallb_app in O.
    rewrite D, !andb_false_r in O. discriminate.
Qed.

Lemma raw_parameter_text_witness :
  exists pre ws name mid args post,
    [py ""; py "f"; py "b: Int"] = [ws; name; args]
    /\ curried_line = pre ++ ws ++ py "def " ++ name ++ mid
                         ++ py "(" ++ args ++ py ")" ++ post
    /\ ~ In "("%char args
    /\ ~ In LF args
    /\ ~ In ")"%char post
    /\ clean_function_definition curried_line
       = ws ++ py "def " ++ name ++ py "(" ++ clean_args args
            ++ py "):" ++ [LF].
Proof.
  apply (raw_parameter_text curried_line [py ""; py "f"; py "b: Int"]).
  - vm_compute. reflexivity.
  - reflexivity.
Defined.

(** C2, as stated, fails on a definition with two parameter lists: the text
    handed to [clean_args] is the content of the last parenthesized group,
    not of the first one. *)
Lemma raw_parameter_text_counterexample :
  readlines curried_line = [curried_line]
  /\ search signature_pattern curried_line
     = Some [py ""; py "f"; py "b: Int"]
  /\ first_paren_group curried_line = Some (py "a: Int")
  /\ clean_function_definition curried_line = py "def f(b):" ++ [LF]
  /\ ~ (forall m, search signature_pattern curried_line = Some m ->
                  first_paren_group curried_line = Some (group 3 m)).
Proof.
  repeat split; try (vm_compute; reflexivity).
  intros H. specialize (H _ eq_refl). vm_compute in H. discriminate.
Qed.

(** C5.  The signature cleaner is idempotent: applied to a line it has
    returned (a cleaned definition line, or a line it passed through), it
    returns that line unchanged. *)
Theorem signature_cleaner_idempotent :
  forall s : str,
    clean_function_definition (clean_function_definition s)
    = clean_function_definition s.
Proof.
  intros s.
  destruct (search signature_pattern s) as [m|] eqn:E.
  - apply clean_function_definition_some in E
      as (pre & ws & name & mid & args & post & -> & C & G & _ & ->).
    destruct C as (_ & Hws & Hne & Hname & _ & Hargs).
    destruct G as (_ & Hpar & _).
    unfold clean_function_definition at 1.
    rewrite (search_here _ _ [ws; name; clean_args args]).
    + unfold group. cbn [nth Nat.sub]. rewrite clean_args_idempotent.
      reflexivity.
    + apply cleaned_line_match; auto.
      * intros I. apply clean_args_In in I as [I|I].
        -- simpl in I. destruct I as [I|[I|[]]]; discriminate.
        -- apply forallb_dot in Hargs. exact (Hargs I).
      * intros I. apply clean_args_In in I as [I|I].
        -- simpl in I. destruct I as [I|[I|[]]]; discriminate.
        -- exact (Hpar I).
  - unfold clean_function_definition. rewrite E, E. reflexivity.
Qed.

(** C8.  On a line the signature pattern does not match, the cleaner
    returns the line as it is; nothing in it can raise. *)
Theorem signature_cleaner_pass_through :
  forall s : str,
    search signature_pattern s = None ->
    clean_function_definition s = s.
Proof.
  intros s H. unfold clean_function_definition. rewrite H. reflexivity.
Qed.

Lemma signature_cleaner_pass_through_witness :
  clean_function_definition no_paren_line = no_paren_line.
Proof.
  apply (signature_cleaner_pass_through no_paren_line).
  vm_compute. reflexivity.
Defined.

(* ================================================================= *)
(** ** Properties of the pipeline *)

(** C3 (amended).  A line that begins with [package] at its first character
    is absent from the output: the pipeline gives what it gives without the
    line.  Every other line is kept by this stage, whether its first
    non-indentation content is [package] or not; a line whose left-trimmed
    text does not begin with [package] is such a line. *)
Theorem package_lines :
  forall (xs : list str) (l : str) (ys : list str),
    (startswith l (py "package") = true ->
     transform (xs ++ l :: ys) = transform (xs ++ ys))
    /\ (startswith l (py "package") = false ->
        remove_package (xs ++ l :: ys)
        = remove_package xs ++ l :: remove_package ys)
    /\ (startswith (lstrip l) (py "package") = false ->
        startswith l (py "package") = false).
Proof.
  intros xs l ys. split; [|split].
  - intros H. apply transform_dropped.
    unfold transform, remove_package. cbn [filter]. rewrite H. reflexivity.
  - intros H. unfold remove_package. rewrite filter_app. cbn [filter].
    rewrite H. reflexivity.
  - intros H. destruct l as [|c l']; [reflexivity|].
    cbn [lstrip] in H. destruct (isspace c) eqn:Sc; [|exact H].
    simpl. destruct (Ascii.eqb_spec c "p"%char) as [->|N]; [|reflexivity].
    vm_compute in Sc. discriminate.
Qed.

Lemma package_lines_witness :
  transform ([val_line] ++ package_line :: [trailing_brace_line])
  = transform ([val_line] ++ [trailing_brace_line])
  /\ remove_package ([] ++ indented_package_line :: [])
     = remove_package [] ++ indented_package_line :: remove_package []
  /\ startswith val_line (py "package") = false.
Proof.
  split; [|split].
  - apply (proj1 (package_lines [val_line] package_line
                    [trailing_brace_line])).
    reflexivity.
  - apply (proj1 (proj2 (package_lines [] indented_package_line []))).
    reflexivity.
  - apply (proj2 (proj2 (package_lines [] val_line []))).
    reflexivity.
Defined.

(** C3, as stated, fails on an indented package declaration: its
    left-trimmed text begins with [package] and the line is in the
    output. *)
Lemma package_lines_counterexample :
  readlines indented_package_line = [indented_package_line]
  /\ startswith (lstrip indented_package_line) (py "package") = true
  /\ transform [indented_package_line] = [indented_package_line].
Proof. repeat split; vm_compute; reflexivity. Qed.

(** C4 (amended).  A line beginning with
    [import org.apache.spark.sql.DataFrame] is replaced in the output by
    exactly [from pyspark.sql.dataframe import DataFrame\n].  The
    replacement always ends with a newline: it carries the terminator of
    the input line when that line ended with one. *)
Theorem dataframe_import_lines :
  forall (xs : list str) (l : str) (ys : list str),
    startswith l (py "import org.apache.spark.sql.DataFrame") = true ->
    transform (xs ++ l :: ys)
    = transform xs ++ dataframe_import :: transform ys
    /\ terminator dataframe_import = [LF]
    /\ (terminator l = [LF] -> terminator dataframe_import = terminator l).
Proof.
  intros xs l ys H. split; [|split; [reflexivity | intros T; rewrite T; reflexivity]].
  rewrite transform_middle. f_equal.
  change (dataframe_import :: transform ys)
    with ([dataframe_import] ++ transform ys). f_equal.
  assert (P : startswith l (py "package") = false).
  { apply startswith_inv in H. rewrite H. reflexivity. }
  unfold transform, remove_package. cbn [filter]. rewrite P. cbn [negb].
  unfold replace_dataframe_import. cbn [map]. rewrite H.
  vm_compute. reflexivity.
Qed.

Lemma dataframe_import_lines_witness :
  transform ([val_line] ++ import_line :: [])
  = transform [val_line] ++ dataframe_import :: transform []
  /\ terminator dataframe_import = [LF]
  /\ (terminator import_line = [LF]
      -> terminator dataframe_import = terminator import_line).
Proof.
  apply (dataframe_import_lines [val_line] import_line []).
  reflexivity.
Defined.

(** C4, as stated, fails on a last line without a newline: the output line
    ends with a newline the input line did not carry. *)
Lemma dataframe_import_lines_counterexample :
  readlines unterminated_import_line = [unterminated_import_line]
  /\ startswith unterminated_import_line
       (py "import org.apache.spark.sql.DataFrame") = true
  /\ transform [unterminated_import_line] = [dataframe_import]
  /\ terminator unterminated_import_line = []
  /\ ~ (exists out, transform [unterminated_import_line] = [out]
                    /\ terminator out = terminator unterminated_import_line).
Proof.
  repeat split; try (vm_compute; reflexivity).
  intros (out & E & T). vm_compute in E. injection E as <-.
  vm_compute in T. discriminate.
Qed.

Lemma filter_spaces (w : str) :
  forallb isspace w = true -> filter (fun c => negb (isspace c)) w = [].
Proof.
  induction w as [|c w IH]; simpl; [reflexivity|].
  intros H. apply andb_true_iff in H as [Hc Hw]. rewrite Hc. simpl.
  apply IH. exact Hw.
Qed.

(** A line that strips to a closing brace has that brace as its only
    character outside whitespace. *)
Lemma strip_brace_only (l : str) :
  strip l = py "}" -> filter (fun c => negb (isspace c)) l = ["}"%char].
Proof.
  unfold strip, rstrip. intros H.
  apply (f_equal (@rev ascii)) in H. rewrite rev_involutive in H.
  simpl in H.
  pose proof (leading_whitespace_lstrip (rev (lstrip l))) as E.
  rewrite H in E. apply (f_equal (@rev ascii)) in E.
  rewrite rev_involutive, rev_app_distr in E. simpl in E.
  rewrite (leading_whitespace_lstrip l), filter_app, E.
  rewrite (filter_spaces _ (leading_whitespace_spaces l)).
  cbn [app filter]. change (isspace "}"%char) with false. cbn [negb].
  f_equal. apply filter_spaces. apply forallb_forall. intros c I.
  apply in_rev in I.
  exact (proj1 (forallb_forall _ _)
           (leading_whitespace_spaces (rev (lstrip l))) c I).
Qed.

(** C6.  A line whose trimmed content is the single character [}] is absent
    from the output: the pipeline gives what it gives without the line.  A
    line that holds a closing brace together with other content that is
    not whitespace (any character outside whitespace besides that brace,
    another brace included) is left in place, untouched, by the
    closing-brace stage; so is, more generally, every line whose trimmed
    content is not exactly [}]. *)
Theorem closing_brace_lines :
  forall (xs : list str) (l : str) (ys : list str),
    (strip l = py "}" ->
     transform (xs ++ l :: ys) = transform (xs ++ ys))
    /\ (forall (a b : str) (c : ascii),
           l = a ++ "}"%char :: b -> In c (a ++ b) -> isspace c = false ->
           remove_closing_braces (xs ++ l :: ys)
           = remove_closing_braces xs ++ l :: remove_closing_braces ys)
    /\ (strip l <> py "}" ->
        remove_closing_braces (xs ++ l :: ys)
        = remove_closing_braces xs ++ l :: remove_closing_braces ys).
Proof.
  intros xs l ys.
  assert (K : strip l <> py "}" ->
              remove_closing_braces (xs ++ l :: ys)
              = remove_closing_braces xs ++ l :: remove_closing_braces ys).
  { intros N. unfold remove_closing_braces.
    rewrite filter_app. cbn [filter].
    destruct (str_eqb (strip l) (py "}")) eqn:B; [|reflexivity].
    apply str_eqb_eq in B. contradiction. }
  split; [|split; [|exact K]].
  - intros H. apply transform_dropped.
    assert (A : forall a, isspace a = false -> a <> "}"%char -> ~ In a l).
    { intros a Sa Na I. destruct (strip_brace l a H I); congruence. }
    assert (P : startswith l (py "package") = false).
    { apply (startswith_absent l "p"%char). apply A; [reflexivity | discriminate]. }
    assert (I1 : startswith l (py "import org.apache.spark.sql.DataFrame")
                 = false).
    { apply (startswith_absent l "i"%char). apply A; [reflexivity | discriminate]. }
    assert (I2 : startswith l (py "import org.apache.spark.sql.functions")
                 = false).
    { apply (startswith_absent l "i"%char). apply A; [reflexivity | discriminate]. }
    assert (I3 : startswith l (py "import scala") = false).
    { apply (startswith_absent l "i"%char). apply A; [reflexivity | discriminate]. }
    assert (V1 : replace l (py "val ") (py "") = l).
    { apply (replace_absent l "v"%char). apply A; [reflexivity | discriminate]. }
    assert (V2 : replace l (py "var ") (py "") = l).
    { apply (replace_absent l "v"%char). apply A; [reflexivity | discriminate]. }
    assert (B : str_eqb (strip l) (py "}") = true)
      by (apply str_eqb_eq; exact H).
    unfold transform, remove_package, replace_dataframe_import,
      replace_functions_import, remove_scala_imports, remove_val, remove_var,
      remove_closing_braces.
    cbn [filter map]. rewrite P. cbn [negb filter map]. rewrite I1, I2, I3.
    cbn [negb filter map]. rewrite V1, V2. cbn [filter]. rewrite B.
    reflexivity.
  - intros a b c El Ic Sc. apply K. intros H.
    apply strip_brace_only in H. rewrite El, filter_app in H.
    cbn [filter] in H. change (isspace "}"%char) with false in H.
    cbn [negb] in H.
    assert (Ic' : In c (filter (fun c => negb (isspace c)) a)
                  \/ In c (filter (fun c => negb (isspace c)) b)).
    { apply in_app_or in Ic as [I|I]; [left | right];
        apply filter_In; (split; [exact I | rewrite Sc; reflexivity]). }
    apply (f_equal (@length ascii)) in H. rewrite length_app in H.
    simpl in H.
    destruct Ic' as [I|I];
      [destruct (filter (fun c => negb (isspace c)) a)
      |destruct (filter (fun c => negb (isspace c)) b)];
      try destruct I; simpl in H; lia.
Qed.

Lemma closing_brace_lines_witness :
  transform ([val_line] ++ brace_line :: [])
  = transform ([val_line] ++ [])
  /\ remove_closing_braces ([] ++ trailing_brace_line :: [])
     = remove_closing_braces [] ++ trailing_brace_line
                                   :: remove_closing_braces []
  /\ remove_closing_braces ([] ++ double_brace_line :: [])
     = remove_closing_braces [] ++ double_brace_line
                                   :: remove_closing_braces []
  /\ remove_closing_braces ([] ++ plain_line :: [])
     = remove_closing_braces [] ++ plain_line :: remove_closing_braces [].
Proof.
  split; [|split; [|split]].
  - apply (proj1 (closing_brace_lines [val_line] brace_line [])).
    reflexivity.
  - apply (proj1 (proj2 (closing_brace_lines [] trailing_brace_line []))
             (py "x = foo() ") [LF] "x"%char).
    + reflexivity.
    + left. reflexivity.
    + reflexivity.
  - apply (proj1 (proj2 (closing_brace_lines [] double_brace_line []))
             [] (py "}" ++ [LF]) "}"%char).
    + reflexivity.
    + left. reflexivity.
    + reflexivity.
  - apply (proj2 (proj2 (closing_brace_lines [] plain_line []))).
    vm_compute. discriminate.
Defined.

(** C7.  The output of the pipeline has at most as many lines as its input,
    and no stage of the pipeline lengthens the sequence it is given. *)
Theorem line_count_never_grows :
  forall xs : list str,
    length (transform xs) <= length xs
    /\ Forall (fun stage => forall ys : list str,
                   length (stage ys) <= length ys) stages.
Proof.
  assert (S : Forall (fun stage => forall ys : list str,
                          length (stage ys) <= length ys) stages).
  { unfold stages.
    repeat (apply Forall_cons; [intros ys|]); try apply Forall_nil.
    all: first [ apply filter_length_le
               | unfold replace_dataframe_import, replace_functions_import,
                   remove_val, remove_var, clean_definitions, prefix_col,
                   replace_null, replace_true, replace_false;
                 rewrite length_map; apply Nat.le_refl ]. }
  intros xs. split; [|exact S].
  rewrite transform_stages. revert xs.
  induction S as [|stage rest Hs _ IH]; intros xs; simpl; [apply Nat.le_refl|].
  etransitivity; [apply IH | apply Hs].
Qed.

(** C9.  The pipeline distributes over concatenation: rewriting [xs ++ ys]
    gives the rewriting of [xs] followed by the rewriting of [ys]. *)
Theorem transform_concatenation :
  forall xs ys : list str,
    transform (xs ++ ys) = transform xs ++ transform ys.
Proof.
  intros xs ys.
  rewrite !transform_stages. unfold stages. cbn [fold_left].
  unfold remove_package, replace_dataframe_import,
    replace_functions_import, remove_scala_imports, remove_val, remove_var,
    remove_closing_braces, clean_definitions, prefix_col, replace_null,
    replace_true, replace_false.
  repeat (rewrite filter_app || rewrite map_app). reflexivity.
Qed.

(* ================================================================= *)
(** ** More on [replace], [split] and [contains] *)

(** Induction along a left-to-right scan for [old]: either the text starts
    with [old] and the scan resumes after it, or it moves one character. *)
Lemma scan_ind (old : str) (P : str -> Prop) :
  old <> [] ->
  P [] ->
  (forall rest, P rest -> P (old ++ rest)) ->
  (forall c s, startswith (c :: s) old = false -> P s -> P (c :: s)) ->
  forall s, P s.
Proof.
  intros Ho H0 Hold Hstep s.
  remember (length s) as n eqn:En. revert s En.
  induction n as [n IH] using lt_wf_ind. intros s En.
  destruct s as [|c s]; [exact H0|].
  destruct (startswith (c :: s) old) eqn:E.
  - apply startswith_inv in E. rewrite E. apply Hold.
    apply (IH (length (skipn (length old) (c :: s)))); [|reflexivity].
    subst n. rewrite length_skipn. destruct old; [congruence|]. simpl. lia.
  - apply Hstep; [exact E|].
    apply (IH (length s)); [subst n; simpl; lia | reflexivity].
Qed.

Lemma replace_from_skip (old new pre s : str) :
  replace_from old new (length pre) (pre ++ s) = replace_from old new 0 s.
Proof. induction pre as [|c pre IH]; simpl; [reflexivity | exact IH]. Qed.

Lemma replace_old (old new s : str) :
  old <> [] -> replace (old ++ s) old new = new ++ replace s old new.
Proof.
  destruct old as [|a old]; [congruence|]. intros _.
  unfold replace. simpl app. simpl replace_from.
  rewrite Ascii.eqb_refl, startswith_app. simpl.
  rewrite replace_from_skip. reflexivity.
Qed.

Lemma replace_step (old new : str) (c : ascii) (s : str) :
  startswith (c :: s) old = false ->
  replace (c :: s) old new = c :: replace s old new.
Proof. unfold replace. intros H. simpl replace_from. rewrite H. reflexivity. Qed.

Lemma replace_nil (old new : str) : old <> [] -> replace [] old new = [].
Proof. destruct old; [congruence | reflexivity]. Qed.

(** Nothing to replace, nothing changed. *)
Lemma replace_id (s old new : str) :
  contains s old = false -> replace s old new = s.
Proof.
  induction s as [|c s IH]; intros H.
  - destruct old; [discriminate | reflexivity].
  - apply contains_false in H as [H1 H2].
    rewrite replace_step by exact H1. f_equal. apply IH. exact H2.
Qed.

Lemma replace_In (s old new : str) (c : ascii) :
  old <> [] -> In c (replace s old new) -> In c s \/ In c new.
Proof.
  intros Ho. pattern s. apply (scan_ind old); [exact Ho | | |]; clear s;
    cbv beta.
  - rewrite replace_nil by exact Ho. intros [].
  - intros rest IH. rewrite replace_old by exact Ho. intros I.
    apply in_app_or in I as [I|I]; [right; exact I|].
    destruct (IH I) as [J|J]; [left; apply in_or_app; right; exact J
                              | right; exact J].
  - intros d s E IH. rewrite replace_step by exact E. intros [->|I].
    + left. left. reflexivity.
    + destruct (IH I) as [J|J]; [left; right; exact J | right; exact J].
Qed.

Lemma startswith_nil_false (p : str) :
  p <> [] -> startswith [] p = false.
Proof. destruct p; [congruence | reflexivity]. Qed.

(** A prefix of the replaced text that avoids the first character of [new]
    was already a prefix of the text. *)
Lemma replace_head (old : str) (n : ascii) (new p : str) :
  old <> [] -> ~ In n p ->
  forall s, startswith (replace s old (n :: new)) p = true ->
            startswith s p = true.
Proof.
  intros Ho. induction p as [|a p IH]; intros N s H; [reflexivity|].
  destruct s as [|c s].
  - rewrite replace_nil in H by exact Ho. exact H.
  - destruct (startswith (c :: s) old) eqn:E.
    + apply startswith_inv in E. rewrite E, replace_old in H by exact Ho.
      simpl in H. apply andb_true_iff in H as [H _].
      apply Ascii.eqb_eq in H. exfalso. apply N. left. symmetry. exact H.
    + rewrite replace_step in H by exact E. simpl in H. simpl.
      apply andb_true_iff in H as [H1 H2]. rewrite H1. simpl.
      apply IH; [|exact H2]. intros I. apply N. right. exact I.
Qed.

Lemma contains_startswith (s p : str) :
  startswith s p = true -> contains s p = true.
Proof. intros H. destruct s; simpl; rewrite H; reflexivity. Qed.

Lemma contains_suffix (pre t pat : str) :
  contains (pre ++ t) pat = false -> contains t pat = false.
Proof.
  induction pre as [|c pre IH]; intros H; [exact H|].
  apply contains_false in H as [_ H]. apply IH. exact H.
Qed.

Lemma contains_middle (a pat b : str) : contains (a ++ pat ++ b) pat = true.
Proof.
  destruct (contains (a ++ pat ++ b) pat) eqn:E; [reflexivity|].
  apply contains_suffix in E.
  rewrite (contains_startswith _ _ (startswith_app pat b)) in E.
  discriminate.
Qed.

(** After a replacement a pattern occurs nowhere, when every occurrence of
    it in the text began an occurrence of [old], no occurrence can begin
    inside [new], and none can run into the first character of [new]. *)
Lemma replace_clears (old : str) (n : ascii) (new : str) (a : ascii)
      (pat : str) :
  old <> [] -> ~ In n pat ->
  (forall r, contains ((n :: new) ++ r) (a :: pat) = contains r (a :: pat)) ->
  forall s,
    (forall pre t, s = pre ++ t -> startswith t (a :: pat) = true ->
                   startswith t old = true) ->
    contains (replace s old (n :: new)) (a :: pat) = false.
Proof.
  intros Ho N Hnew s. pattern s. apply (scan_ind old); [exact Ho | | |];
    clear s; cbv beta.
  - intros _. rewrite replace_nil by exact Ho. reflexivity.
  - intros rest IH H. rewrite replace_old, Hnew by exact Ho.
    apply IH. intros pre t -> Ht. apply (H (old ++ pre) t); [|exact Ht].
    rewrite app_assoc. reflexivity.
  - intros c s E IH H. rewrite replace_step by exact E.
    change (contains (c :: replace s old (n :: new)) (a :: pat))
      with (startswith (c :: replace s old (n :: new)) (a :: pat)
            || contains (replace s old (n :: new)) (a :: pat)).
    apply orb_false_iff. split.
    + destruct (startswith (c :: replace s old (n :: new)) (a :: pat)) eqn:S;
        [exfalso|reflexivity].
      simpl in S. apply andb_true_iff in S as [S1 S2].
      apply (replace_head old n new pat Ho N) in S2.
      assert (S' : startswith (c :: s) (a :: pat) = true)
        by (simpl; rewrite S1, S2; reflexivity).
      rewrite (H [] (c :: s) eq_refl S') in E. discriminate.
    + apply IH. intros pre t -> Ht. exact (H (c :: pre) t eq_refl Ht).
Qed.

(** A last character foreign to [old] stays last. *)
Lemma startswith_snoc (t old : str) (c : ascii) :
  ~ In c old -> startswith (t ++ [c]) old = startswith t old.
Proof.
  revert t. induction old as [|a old IH]; intros t N; [reflexivity|].
  destruct t as [|d t]; simpl.
  - destruct (Ascii.eqb_spec c a) as [->|Hca];
      [exfalso; apply N; left; reflexivity | reflexivity].
  - rewrite IH; [reflexivity|]. intros I. apply N. right. exact I.
Qed.

Lemma replace_snoc (old new s : str) (c : ascii) :
  old <> [] -> ~ In c old ->
  replace (s ++ [c]) old new = replace s old new ++ [c].
Proof.
  intros Ho N. pattern s. apply (scan_ind old); [exact Ho | | |]; clear s;
    cbv beta.
  - rewrite replace_nil by exact Ho. simpl app.
    rewrite replace_step, replace_nil; [reflexivity | exact Ho |].
    change [c] with ([] ++ [c]). rewrite startswith_snoc by exact N.
    apply startswith_nil_false. exact Ho.
  - intros rest IH. rewrite <- app_assoc, !replace_old, IH by exact Ho.
    rewrite app_assoc. reflexivity.
  - intros d s E IH. simpl app. rewrite !replace_step, IH; [reflexivity | exact E|].
    change (d :: s ++ [c]) with ((d :: s) ++ [c]).
    rewrite startswith_snoc by exact N. exact E.
Qed.

(** [split] then [join] gives the text back. *)
Lemma join_cons_field (sep : str) (c : ascii) (fs : list str) :
  fs <> [] -> join sep (cons_field c fs) = c :: join sep fs.
Proof. destruct fs as [|h [|y t]]; [congruence | reflexivity | reflexivity]. Qed.

Lemma join_split (s sep : str) : sep <> [] -> join sep (split s sep) = s.
Proof.
  intros Hs. pattern s. apply (scan_ind sep); [exact Hs | | |]; clear s;
    cbv beta.
  - reflexivity.
  - intros rest IH. rewrite split_sep by exact Hs.
    pose proof (split_from_nonempty sep 0 rest) as N. unfold split in *.
    destruct (split_from sep 0 rest) as [|y t]; [congruence|].
    change (join sep ([] :: y :: t)) with (sep ++ join sep (y :: t)).
    rewrite IH. reflexivity.
  - intros c s E IH. rewrite split_step by exact E.
    rewrite join_cons_field, IH; [reflexivity|].
    apply split_from_nonempty.
Qed.

(** A pattern absent from the text is absent from every field. *)
Lemma split_fields_absent (sep pat : str) :
  sep <> [] ->
  forall s, contains s pat = false ->
            forall f, In f (split s sep) -> contains f pat = false.
Proof.
  intros Hs s. pattern s. apply (scan_ind sep); [exact Hs | | |]; clear s;
    cbv beta.
  - intros H f [<-|[]]. exact H.
  - intros rest IH H f. rewrite split_sep by exact Hs. intros [<-|I].
    + apply (contains_prefix [] (sep ++ rest)). exact H.
    + apply IH; [|exact I]. apply (contains_suffix sep). exact H.
  - intros c s E IH H f. rewrite split_step by exact E.
    pose proof (first_field_split s sep) as F.
    pose proof (split_from_nonempty sep 0 s) as N. unfold split in *.
    destruct (split_from sep 0 s) as [|h t]; [congruence|].
    simpl in F. simpl. intros [<-|I].
    + destruct (before_first_prefix sep s) as (r & Er).
      apply (contains_prefix (c :: h) r). simpl app. rewrite F, <- Er.
      exact H.
    + apply IH; [|right; exact I].
      apply contains_false in H as [_ H]. exact H.
Qed.

(* ================================================================= *)
(** ** The pipeline, read line by line *)

Lemma transform_single (x : str) : transform [x] = line_output x.
Proof.
  unfold transform, line_output, rewrite_line, remove_package,
    replace_dataframe_import, replace_functions_import, remove_scala_imports,
    remove_val, remove_var, remove_closing_braces, clean_definitions,
    prefix_col, replace_null, replace_true, replace_false.
  cbv zeta. cbn [filter map].
  destruct (startswith x (py "package")); cbn [negb filter map];
    [reflexivity|].
  match goal with
  | |- context [startswith ?t (py "import scala")] =>
      destruct (startswith t (py "import scala"))
  end; cbn [negb filter map]; [reflexivity|].
  match goal with
  | |- context [str_eqb (strip ?t) (py "}")] =>
      destruct (str_eqb (strip t) (py "}"))
  end; cbn [negb filter map]; reflexivity.
Qed.

Lemma transform_flat_map (xs : list str) :
  transform xs = flat_map line_output xs.
Proof.
  induction xs as [|x xs IH]; [reflexivity|].
  change (x :: xs) with ([x] ++ xs).
  rewrite transform_app, transform_single, IH. reflexivity.
Qed.

Lemma line_output_length (x : str) : length (line_output x) <= 1.
Proof. unfold line_output. destruct (rewrite_line x); simpl; lia. Qed.

Lemma spark_dataframe_prefix (l : str) :
  startswith l (py "import org.apache.spark.sql.DataFrame") = true ->
  startswith l (py "package") = false
  /\ startswith l (py "import org.apache.spark.sql.functions") = false
  /\ startswith l (py "import scala") = false.
Proof.
  intros H. apply startswith_inv in H. rewrite H.
  repeat split; reflexivity.
Qed.

Lemma spark_functions_prefix (l : str) :
  startswith l (py "import org.apache.spark.sql.functions") = true ->
  startswith l (py "package") = false
  /\ startswith l (py "import org.apache.spark.sql.DataFrame") = false
  /\ startswith l (py "import scala") = false.
Proof.
  intros H. apply startswith_inv in H. rewrite H.
  repeat split; reflexivity.
Qed.

Lemma rewrite_line_dataframe (l : str) :
  startswith l (py "import org.apache.spark.sql.DataFrame") = true ->
  rewrite_line l = Some dataframe_import.
Proof.
  intros H. destruct (spark_dataframe_prefix l H) as (P & _ & _).
  unfold rewrite_line. rewrite P, H. vm_compute. reflexivity.
Qed.

Lemma rewrite_line_functions (l : str) :
  startswith l (py "import org.apache.spark.sql.functions") = true ->
  rewrite_line l = Some functions_import.
Proof.
  intros H. destruct (spark_functions_prefix l H) as (P & D & _).
  unfold rewrite_line. rewrite P, D, H. vm_compute. reflexivity.
Qed.

(** Exactly the dropped lines give no output line. *)
Lemma rewrite_line_none (l : str) :
  rewrite_line l = None <-> is_dropped l = true.
Proof.
  unfold is_dropped.
  destruct (startswith l (py "package")) eqn:P.
  { unfold rewrite_line. rewrite P. split; reflexivity. }
  destruct (startswith l (py "import org.apache.spark.sql.DataFrame")) eqn:D.
  { rewrite (rewrite_line_dataframe l D).
    destruct (spark_dataframe_prefix l D) as (_ & _ & ->).
    split; discriminate. }
  destruct (startswith l (py "import org.apache.spark.sql.functions")) eqn:F.
  { rewrite (rewrite_line_functions l F).
    destruct (spark_functions_prefix l F) as (_ & _ & ->).
    split; discriminate. }
  unfold rewrite_line. rewrite P, D, F. cbv zeta.
  destruct (startswith l (py "import scala")); [split; reflexivity|].
  cbn [negb andb orb].
  destruct (str_eqb (strip (replace (replace l (py "val ") (py ""))
                                    (py "var ") (py ""))) (py "}"));
    split; (reflexivity || discriminate).
Qed.

Lemma line_output_dropped (l : str) :
  line_output l = if is_dropped l then [] else line_output l.
Proof.
  destruct (is_dropped l) eqn:E; [|reflexivity].
  apply rewrite_line_none in E. unfold line_output. rewrite E. reflexivity.
Qed.

Lemma line_output_count (l : str) :
  length (line_output l) = if is_dropped l then 0 else 1.
Proof.
  destruct (is_dropped l) eqn:E.
  - apply rewrite_line_none in E. unfold line_output. rewrite E. reflexivity.
  - unfold line_output. destruct (rewrite_line l) eqn:R; [reflexivity|].
    apply rewrite_line_none in R. congruence.
Qed.

(** An inert line comes out as it went in. *)
Lemma rewrite_line_inert (l : str) : inert l = true -> rewrite_line l = Some l.
Proof.
  unfold inert. intros H.
  repeat (apply andb_true_iff in H as [H ?]).
  repeat match goal with
         | X : negb _ = true |- _ => apply negb_true_iff in X
         end.
  unfold rewrite_line.
  repeat match goal with
         | X : startswith l _ = false |- _ => rewrite X; clear X
         end.
  cbv zeta.
  rewrite (replace_id l (py "val ") (py "")) by assumption.
  rewrite (replace_id l (py "var ") (py "")) by assumption.
  match goal with
  | X : str_eqb _ _ = false |- _ => rewrite X
  end.
  assert (C : (if startswith (lstrip l) (py "def")
               then clean_function_definition l else l) = l).
  { destruct (startswith (lstrip l) (py "def")); [|reflexivity].
    match goal with X : _ || _ = true |- _ => simpl in X end.
    unfold clean_function_definition.
    destruct (search signature_pattern l); [congruence | reflexivity]. }
  rewrite C.
  rewrite (replace_id l (py "col(") (py "F.col(")) by assumption.
  rewrite (replace_id l (py "null") (py "None")) by assumption.
  rewrite (replace_id l (py "true") (py "True")) by assumption.
  rewrite (replace_id l (py "false") (py "False")) by assumption.
  reflexivity.
Qed.

(* ================================================================= *)
(** ** Further properties of the pipeline *)

(** X1.  A line beginning with [import org.apache.spark.sql.functions] is
    replaced in the output, in place, by exactly
    [import pyspark.sql.functions as F\n], whatever follows the prefix. *)
Theorem functions_import_lines :
  forall (xs : list str) (l : str) (ys : list str),
    startswith l (py "import org.apache.spark.sql.functions") = true ->
    transform (xs ++ l :: ys)
    = transform xs ++ functions_import :: transform ys.
Proof.
  intros xs l ys H. rewrite transform_middle, transform_single.
  unfold line_output. rewrite (rewrite_line_functions l H). reflexivity.
Qed.

Lemma functions_import_lines_witness :
  transform ([val_line] ++ functions_import_line :: [plain_line])
  = transform [val_line] ++ functions_import :: transform [plain_line].
Proof.
  apply (functions_import_lines [val_line] functions_import_line
           [plain_line]).
  reflexivity.
Defined.

(** X2.  A line beginning with [import scala] is absent from the output:
    the pipeline gives what it gives without the line. *)
Theorem scala_import_lines :
  forall (xs : list str) (l : str) (ys : list str),
    startswith l (py "import scala") = true ->
    transform (xs ++ l :: ys) = transform (xs ++ ys).
Proof.
  intros xs l ys H. apply transform_dropped.
  rewrite transform_single, line_output_dropped.
  unfold is_dropped. rewrite H, orb_true_r. reflexivity.
Qed.

Lemma scala_import_lines_witness :
  transform ([val_line] ++ scala_import_line :: [plain_line])
  = transform ([val_line] ++ [plain_line]).
Proof.
  apply (scala_import_lines [val_line] scala_import_line [plain_line]).
  reflexivity.
Defined.

(** X3.  The output has exactly as many lines as the input has lines that
    are not dropped, the dropped lines being the package lines, the
    [scala] imports and the lines that are a lone closing brace once
    [val ] and [var ] are stripped; a single line gives no output exactly
    when it is one of these. *)
Theorem output_line_count :
  forall (xs : list str) (l : str),
    length (transform xs)
    = length (filter (fun x => negb (is_dropped x)) xs)
    /\ (transform [l] = [] <-> is_dropped l = true).
Proof.
  intros xs l. split.
  - rewrite transform_flat_map.
    induction xs as [|x xs IH]; [reflexivity|].
    cbn [flat_map filter]. rewrite length_app, IH, line_output_count.
    destruct (is_dropped x); reflexivity.
  - rewrite transform_single, <- rewrite_line_none. unfold line_output.
    destruct (rewrite_line l); split; congruence.
Qed.

(** The brace test comes after the stripping of [val ]. *)
Example val_brace_dropped :
  is_dropped val_brace_line = true /\ transform [val_brace_line] = [].
Proof. split; vm_compute; reflexivity. Qed.

(** X4.  A sequence of lines on which no statement has anything to do (no
    package or import prefix, no [val ], [var ], [col(], [null], [true] or
    [false] inside, not a lone brace, and no definition the pattern
    matches) comes out unchanged. *)
Theorem inert_lines_unchanged :
  forall xs : list str,
    forallb inert xs = true -> transform xs = xs.
Proof.
  intros xs H. rewrite transform_flat_map.
  induction xs as [|x xs IH]; [reflexivity|].
  simpl in H. apply andb_true_iff in H as [Hx Hxs].
  cbn [flat_map]. unfold line_output at 1.
  rewrite (rewrite_line_inert x Hx), (IH Hxs). reflexivity.
Qed.

Lemma inert_lines_unchanged_witness :
  transform [plain_line; no_paren_line] = [plain_line; no_paren_line].
Proof.
  apply (inert_lines_unchanged [plain_line; no_paren_line]).
  vm_compute. reflexivity.
Defined.

(** X5.  The twelve passes over the whole sequence amount to one pass line
    by line: the output is the concatenation, in input order, of what each
    line gives by itself, which is one line or none. *)
Theorem transform_line_by_line :
  forall xs : list str,
    transform xs = flat_map (fun x => transform [x]) xs
    /\ (forall x : str, length (transform [x]) <= 1).
Proof.
  intros xs. split.
  - rewrite transform_flat_map. apply flat_map_ext. intros x.
    symmetry. apply transform_single.
  - intros x. rewrite transform_single. apply line_output_length.
Qed.

Lemma replace_keeps_absent (old : str) (n : ascii) (new : str) (a : ascii)
      (pat s : str) :
  old <> [] -> ~ In n pat ->
  (forall r, contains ((n :: new) ++ r) (a :: pat) = contains r (a :: pat)) ->
  contains s (a :: pat) = false ->
  contains (replace s old (n :: new)) (a :: pat) = false.
Proof.
  intros Ho N Hnew H. apply replace_clears; auto.
  intros pre t -> Ht. apply contains_suffix in H.
  rewrite (contains_startswith _ _ Ht) in H. discriminate.
Qed.

Ltac not_among :=
  let I := fresh in
  intros I; simpl in I;
  repeat (destruct I as [I|I]; [discriminate|]); exact I.

Lemma null_cleared (s : str) :
  contains (replace s (py "null") (py "None")) (py "null") = false.
Proof.
  apply (replace_clears (py "null") "N"%char (py "one") "n"%char (py "ull"));
    [discriminate | not_among | reflexivity | auto].
Qed.

Lemma true_cleared (s : str) :
  contains (replace s (py "true") (py "True")) (py "true") = false.
Proof.
  apply (replace_clears (py "true") "T"%char (py "rue") "t"%char (py "rue"));
    [discriminate | not_among | reflexivity | auto].
Qed.

Lemma false_cleared (s : str) :
  contains (replace s (py "false") (py "False")) (py "false") = false.
Proof.
  apply (replace_clears (py "false") "F"%char (py "alse") "f"%char
           (py "alse"));
    [discriminate | not_among | reflexivity | auto].
Qed.

Lemma true_keeps_null_absent (s : str) :
  contains s (py "null") = false ->
  contains (replace s (py "true") (py "True")) (py "null") = false.
Proof.
  apply (replace_keeps_absent (py "true") "T"%char (py "rue") "n"%char
           (py "ull"));
    [discriminate | not_among | reflexivity].
Qed.

Lemma false_keeps_null_absent (s : str) :
  contains s (py "null") = false ->
  contains (replace s (py "false") (py "False")) (py "null") = false.
Proof.
  apply (replace_keeps_absent (py "false") "F"%char (py "alse") "n"%char
           (py "ull"));
    [discriminate | not_among | reflexivity].
Qed.

Lemma false_keeps_true_absent (s : str) :
  contains s (py "true") = false ->
  contains (replace s (py "false") (py "False")) (py "true") = false.
Proof.
  apply (replace_keeps_absent (py "false") "F"%char (py "alse") "t"%char
           (py "rue"));
    [discriminate | not_among | reflexivity].
Qed.

Lemma rewrite_line_tail (x l : str) :
  rewrite_line x = Some l ->
  exists w, l = replace (replace (replace w (py "null") (py "None"))
                                 (py "true") (py "True"))
                        (py "false") (py "False").
Proof.
  unfold rewrite_line.
  destruct (startswith x (py "package")); [discriminate|]. cbv zeta.
  match goal with
  | |- context [startswith ?t (py "import scala")] =>
      destruct (startswith t (py "import scala"))
  end; [discriminate|].
  match goal with
  | |- context [str_eqb (strip ?t) (py "}")] =>
      destruct (str_eqb (strip t) (py "}"))
  end; [discriminate|].
  intros H. injection H as <-. eexists. reflexivity.
Qed.

(** X6.  No output line holds [null], [true] or [false]: each of the three
    substitutions leaves no occurrence of its token, and the later ones
    cannot form an earlier token again. *)
Theorem output_has_no_scala_literal :
  forall (xs : list str) (l : str),
    In l (transform xs) ->
    contains l (py "null") = false
    /\ contains l (py "true") = false
    /\ contains l (py "false") = false.
Proof.
  intros xs l I. rewrite transform_flat_map in I.
  apply in_flat_map in I as (x & _ & I). unfold line_output in I.
  destruct (rewrite_line x) as [y|] eqn:R; [|destruct I].
  destruct I as [<-|[]]. apply rewrite_line_tail in R as (w & ->).
  split; [|split].
  - apply false_keeps_null_absent, true_keeps_null_absent, null_cleared.
  - apply false_keeps_true_absent, true_cleared.
  - apply false_cleared.
Qed.

Lemma output_has_no_scala_literal_witness :
  contains (py "x = None" ++ [LF]) (py "null") = false
  /\ contains (py "x = None" ++ [LF]) (py "true") = false
  /\ contains (py "x = None" ++ [LF]) (py "false") = false.
Proof.
  apply (output_has_no_scala_literal [val_line] (py "x = None" ++ [LF])).
  vm_compute. left. reflexivity.
Defined.

(** X7.  A line made of [val ] or [var ] in front of an inert text comes
    out as that text: the keyword and its space are stripped and nothing
    else is touched. *)
Theorem binding_keyword_stripped :
  forall rest : str,
    inert rest = true ->
    transform [py "val " ++ rest] = [rest]
    /\ transform [py "var " ++ rest] = [rest].
Proof.
  intros rest H.
  pose proof (rewrite_line_inert rest H) as R.
  unfold inert in H. repeat (apply andb_true_iff in H as [H ?]).
  repeat match goal with
         | X : negb _ = true |- _ => apply negb_true_iff in X
         end.
  assert (Hval : contains rest (py "val ") = false) by assumption.
  assert (Hvar : contains rest (py "var ") = false) by assumption.
  assert (V1 : replace (replace (py "val " ++ rest) (py "val ") (py ""))
                 (py "var ") (py "") = rest).
  { rewrite replace_old by discriminate. simpl app.
    rewrite (replace_id rest (py "val ")) by exact Hval.
    apply replace_id. exact Hvar. }
  assert (V2 : replace (replace (py "var " ++ rest) (py "val ") (py ""))
                 (py "var ") (py "") = rest).
  { rewrite (replace_id (py "var " ++ rest) (py "val ")) by exact Hval.
    rewrite replace_old by discriminate. simpl app.
    apply replace_id. exact Hvar. }
  assert (V0 : replace (replace rest (py "val ") (py ""))
                 (py "var ") (py "") = rest)
    by (rewrite (replace_id rest (py "val ")) by exact Hval;
        apply replace_id; exact Hvar).
  unfold rewrite_line in R.
  repeat match goal with
         | X : startswith rest _ = false |- _ => rewrite X in R; clear X
         end.
  cbv zeta in R. rewrite V0 in R.
  split; rewrite transform_single; unfold line_output, rewrite_line.
  - change (startswith (py "val " ++ rest) (py "package")) with false.
    cbv beta iota zeta.
    change (startswith (py "val " ++ rest)
              (py "import org.apache.spark.sql.DataFrame")) with false.
    cbv beta iota zeta.
    change (startswith (py "val " ++ rest)
              (py "import org.apache.spark.sql.functions")) with false.
    cbv beta iota zeta.
    change (startswith (py "val " ++ rest) (py "import scala")) with false.
    cbv beta iota zeta. rewrite V1, R. reflexivity.
  - change (startswith (py "var " ++ rest) (py "package")) with false.
    cbv beta iota zeta.
    change (startswith (py "var " ++ rest)
              (py "import org.apache.spark.sql.DataFrame")) with false.
    cbv beta iota zeta.
    change (startswith (py "var " ++ rest)
              (py "import org.apache.spark.sql.functions")) with false.
    cbv beta iota zeta.
    change (startswith (py "var " ++ rest) (py "import scala")) with false.
    cbv beta iota zeta. rewrite V2, R. reflexivity.
Qed.

Lemma binding_keyword_stripped_witness :
  transform [py "val " ++ plain_line] = [plain_line]
  /\ transform [py "var " ++ plain_line] = [plain_line].
Proof.
  apply (binding_keyword_stripped plain_line).
  vm_compute. reflexivity.
Defined.

(* ================================================================= *)
(** ** Further properties of the signature cleaner *)

Lemma clean_args_fields (args : str) (p : str) :
  In p (map (before_first (py ": ")) (split args (py ", "))) ->
  contains p (py ", ") = false /\ contains p (py ": ") = false.
Proof.
  intros I. apply in_map_iff in I as (a & <- & Ia). split.
  - destruct (split_from_fields (py ", ") 0 args a) as [C _];
      [discriminate | exact Ia |].
    destruct (before_first_prefix (py ": ") a) as (r & Er).
    rewrite Er in C. apply contains_prefix in C. exact C.
  - apply before_first_clean. discriminate.
Qed.

(** Joining with [", "] cannot form a [": "]. *)
Lemma join_no_annotation (ps : list str) :
  (forall p, In p ps -> contains p (py ": ") = false) ->
  contains (join (py ", ") ps) (py ": ") = false.
Proof.
  induction ps as [|p ps IH]; intros H; [reflexivity|].
  destruct ps as [|q ps]; [apply H; left; reflexivity|].
  change (join (py ", ") (p :: q :: ps))
    with (p ++ py ", " ++ join (py ", ") (q :: ps)).
  assert (Hr : contains (join (py ", ") (q :: ps)) (py ": ") = false)
    by (apply IH; intros x I; apply H; right; exact I).
  assert (Hp : contains p (py ": ") = false) by (apply H; left; reflexivity).
  clear IH H. revert Hr Hp. generalize (join (py ", ") (q :: ps)).
  intros r Hr. induction p as [|c p IHp]; intros Hp.
  - simpl. exact Hr.
  - apply contains_false in Hp as [Hp1 Hp2].
    change ((c :: p) ++ py ", " ++ r) with (c :: p ++ py ", " ++ r).
    change (contains (c :: p ++ py ", " ++ r) (py ": "))
      with (startswith (c :: p ++ py ", " ++ r) (py ": ")
            || contains (p ++ py ", " ++ r) (py ": ")).
    rewrite (IHp Hp2), orb_false_r.
    destruct p as [|d p]; simpl in *.
    + rewrite andb_false_r. reflexivity.
    + exact Hp1.
Qed.

(** X8.  The text [clean_args] returns holds no [": "]: no annotation
    separator survives, and joining the names cannot form one. *)
Theorem clean_args_no_annotation :
  forall args : str, contains (clean_args args) (py ": ") = false.
Proof.
  intros args. rewrite clean_args_before_first.
  apply join_no_annotation. intros p I.
  apply (clean_args_fields args p I).
Qed.

(** X9.  [clean_args] keeps the number and the order of the entries: the
    entries of its result are the entries of the parameter text, each cut
    before its first [": "]. *)
Theorem clean_args_entries :
  forall args : str,
    split (clean_args args) (py ", ")
    = map (before_first (py ": ")) (split args (py ", ")).
Proof.
  intros args. rewrite clean_args_before_first.
  change (py ", ") with [","%char; " "%char].
  apply split_join.
  - discriminate.
  - pose proof (split_from_nonempty [","%char; " "%char] 0 args) as N.
    unfold split. destruct (split_from [","%char; " "%char] 0 args);
      [congruence | discriminate].
  - intros f I. apply (clean_args_fields args f I).
Qed.

(** X10.  A parameter text without [": "] is returned as it is. *)
Theorem clean_args_bare :
  forall args : str,
    contains args (py ": ") = false -> clean_args args = args.
Proof.
  intros args H. rewrite clean_args_before_first.
  rewrite <- (join_split args (py ", ")) at 2 by discriminate.
  f_equal. rewrite <- (map_id (split args (py ", "))) at 2.
  apply map_ext_in. intros f I. apply before_first_id.
  apply (split_fields_absent (py ", ") (py ": ")) with (s := args);
    [discriminate | exact H | exact I].
Qed.

Lemma clean_args_bare_witness : clean_args (py "a, b = 1, c") = py "a, b = 1, c".
Proof. apply (clean_args_bare (py "a, b = 1, c")). reflexivity. Defined.

(** X11.  A line without [def ], without an opening parenthesis or without
    a closing one is returned by the cleaner as it is. *)
Theorem cleaner_needs_parentheses :
  forall l : str,
    contains l (py "def ") = false
    \/ ~ In "("%char l \/ ~ In ")"%char l ->
    clean_function_definition l = l.
Proof.
  intros l H. unfold clean_function_definition.
  destruct (search signature_pattern l) as [m|] eqn:E; [exfalso|reflexivity].
  apply clean_function_definition_some in E
    as (pre & ws & name & mid & args & post & _ & C & _ & Epre & _).
  destruct C as (E & _). rewrite E in Epre.
  destruct H as [H|[H|H]].
  - rewrite Epre in H.
    replace (pre ++ ws ++ py "def " ++ name ++ mid ++ py "(" ++ args
               ++ py ")" ++ post)
      with ((pre ++ ws) ++ py "def " ++ name ++ mid ++ py "(" ++ args
              ++ py ")" ++ post) in H by regroup.
    rewrite contains_middle in H. discriminate.
  - apply H. rewrite Epre.
    replace (pre ++ ws ++ py "def " ++ name ++ mid ++ py "(" ++ args
               ++ py ")" ++ post)
      with ((pre ++ ws ++ py "def " ++ name ++ mid)
              ++ "("%char :: args ++ py ")" ++ post) by regroup.
    apply in_elt.
  - apply H. rewrite Epre.
    replace (pre ++ ws ++ py "def " ++ name ++ mid ++ py "(" ++ args
               ++ py ")" ++ post)
      with ((pre ++ ws ++ py "def " ++ name ++ mid ++ py "(" ++ args)
              ++ ")"%char :: post) by regroup.
    apply in_elt.
Qed.

Lemma cleaner_needs_parentheses_witness :
  clean_function_definition no_paren_line = no_paren_line.
Proof.
  apply (cleaner_needs_parentheses no_paren_line).
  right. left. intros I. simpl in I.
  repeat (destruct I as [I|I]; [discriminate|]). exact I.
Defined.

(* ================================================================= *)
(** ** Lines stay lines, and what [display] prints *)

Lemma one_line_snoc (body : str) (c : ascii) :
  one_line (body ++ [c]) = forallb dot body.
Proof. unfold one_line. rewrite removelast_last. reflexivity. Qed.

Lemma one_line_no_newline (l : str) : ~ In LF l -> one_line l = true.
Proof.
  destruct l as [|c l] using rev_ind; [reflexivity|].
  intros N. rewrite one_line_snoc. apply forallb_dot.
  intros I. apply N. apply in_or_app. left. exact I.
Qed.

Lemma one_line_replace (l old new : str) :
  old <> [] -> ~ In LF old -> ~ In LF new ->
  one_line l = true -> one_line (replace l old new) = true.
Proof.
  intros Ho No Nn. destruct l as [|c body _] using rev_ind.
  - intros _. rewrite replace_nil by exact Ho. reflexivity.
  - rewrite one_line_snoc. intros H. apply forallb_dot in H.
    assert (B : ~ In LF (replace body old new)).
    { intros I. apply replace_In in I as [I|I]; [auto | auto | exact Ho]. }
    destruct (Ascii.eqb_spec c LF) as [->|Nc].
    + rewrite replace_snoc by assumption. rewrite one_line_snoc.
      apply forallb_dot. exact B.
    + apply one_line_no_newline. intros I.
      apply replace_In in I as [I|I]; [|auto | exact Ho].
      apply in_app_or in I as [I|[I|[]]]; [auto | congruence].
Qed.

Lemma one_line_clean_function_definition (l : str) :
  one_line l = true -> one_line (clean_function_definition l) = true.
Proof.
  intros H. destruct (search signature_pattern l) as [m|] eqn:E.
  - apply clean_function_definition_some in E
      as (pre & ws & name & mid & args & post & _ & C & _ & Epre & ->).
    destruct C as (E & _ & _ & Hname & _ & Hargs). rewrite E in Epre.
    replace (ws ++ py "def " ++ name ++ py "(" ++ clean_args args
               ++ py "):" ++ [LF])
      with ((ws ++ py "def " ++ name ++ py "(" ++ clean_args args
               ++ py "):") ++ [LF]) by regroup.
    rewrite one_line_snoc. apply forallb_dot. intros I.
    apply in_app_or in I as [I|I].
    { assert (O : one_line ((pre ++ ws) ++ "d"%char :: py "ef " ++ name
                              ++ mid ++ py "(" ++ args ++ py ")" ++ post)
                  = true).
      { replace ((pre ++ ws) ++ "d"%char :: py "ef " ++ name ++ mid
                   ++ py "(" ++ args ++ py ")" ++ post) with l;
          [exact H|].
        etransitivity; [exact Epre|]. regroup. }
      apply one_line_front in O. rewrite forallb_app in O.
      apply andb_true_iff in O as [_ O]. apply forallb_dot in O. auto. }
    apply in_app_or in I as [I|I]; [revert I; not_among|].
    apply in_app_or in I as [I|I];
      [exact (class_absent is_word LF name Hname eq_refl I)|].
    apply in_app_or in I as [I|I]; [revert I; not_among|].
    apply in_app_or in I as [I|I]; [|revert I; not_among].
    apply clean_args_In in I as [I|I]; [revert I; not_among|].
    apply forallb_dot in Hargs. auto.
  - unfold clean_function_definition. rewrite E. exact H.
Qed.

Lemma rewrite_line_one_line (x l : str) :
  rewrite_line x = Some l -> one_line x = true -> one_line l = true.
Proof.
  unfold rewrite_line.
  destruct (startswith x (py "package")); [discriminate|]. cbv zeta.
  match goal with
  | |- context [startswith ?t (py "import scala")] =>
      destruct (startswith t (py "import scala")); [discriminate|];
      set (y := t)
  end.
  match goal with
  | |- context [str_eqb (strip ?t) (py "}")] =>
      destruct (str_eqb (strip t) (py "}")); [discriminate|];
      set (z := t)
  end.
  intros H Hx. injection H as <-.
  assert (Hy : one_line y = true).
  { unfold y.
    destruct (startswith x (py "import org.apache.spark.sql.DataFrame"));
      [reflexivity|].
    destruct (startswith x (py "import org.apache.spark.sql.functions"));
      [reflexivity | exact Hx]. }
  assert (Hz : one_line z = true).
  { unfold z. apply one_line_replace;
      [discriminate | not_among | not_among |].
    apply one_line_replace; [discriminate | not_among | not_among | exact Hy]. }
  repeat (apply one_line_replace; [discriminate | not_among | not_among |]).
  match goal with
  | |- one_line (if ?b then _ else _) = true => destruct b
  end; [apply one_line_clean_function_definition|]; exact Hz.
Qed.

Lemma transform_one_line (xs : list str) (l : str) :
  (forall x, In x xs -> one_line x = true) ->
  In l (transform xs) -> one_line l = true.
Proof.
  intros H I. rewrite transform_flat_map in I.
  apply in_flat_map in I as (x & Ix & I). unfold line_output in I.
  destruct (rewrite_line x) as [y|] eqn:R; [|destruct I].
  destruct I as [<-|[]]. apply (rewrite_line_one_line x y R). apply H.
  exact Ix.
Qed.

(** X12.  Every line [lines] returns holds no newline except, possibly, as
    its last character: the rewriting never joins lines nor breaks one. *)
Theorem lines_are_single_lines :
  forall (self : ScalaToPyspark) (fs : FileSystem) (out : list str),
    fst (lines self fs) = Returned out ->
    forall l, In l out -> one_line l = true.
Proof.
  intros self fs out H l I. unfold lines in H.
  destruct (fs (scala_path self)) as [text|]; [|discriminate].
  simpl in H. injection H as <-.
  apply (transform_one_line (readlines text) l); [|exact I].
  intros x Ix. apply (readlines_one_line text x Ix).
Qed.

Lemma lines_are_single_lines_witness :
  one_line (py "x = None" ++ [LF]) = true.
Proof.
  apply (lines_are_single_lines job job_files [py "x = None" ++ [LF]]).
  - vm_compute. reflexivity.
  - left. reflexivity.
Defined.

Lemma join_empty (ls : list str) : join (py "") ls = concat ls.
Proof.
  induction ls as [|x ls IH]; [reflexivity|].
  destruct ls as [|y ls]; [simpl; rewrite app_nil_r; reflexivity|].
  change (join (py "") (x :: y :: ls)) with (x ++ join (py "") (y :: ls)).
  rewrite IH. reflexivity.
Qed.

(** [readlines] loses nothing of the translated text. *)
Lemma concat_split_lines (s : str) : concat (split_lines s) = s.
Proof.
  induction s as [|c s IH]; [reflexivity|]. simpl.
  destruct (Ascii.eqb c LF); [simpl; rewrite IH; reflexivity|].
  destruct (split_lines s) as [|h t]; simpl in *; rewrite <- IH; reflexivity.
Qed.

(** X13.  [display] prints nothing when the file cannot be opened, the
    error leaving before any output.  On a file whose lines are all inert
    it prints the text of the file, its newlines read as ["\n"], followed
    by one more newline, and leaves the files as they were. *)
Theorem display_output :
  forall (self : ScalaToPyspark) (fs : FileSystem) (stdout : str),
    (fs (scala_path self) = None ->
     display self fs stdout = (Raised_OSError, fs, stdout))
    /\ (forall text : str,
           fs (scala_path self) = Some text ->
           forallb inert (readlines text) = true ->
           display self fs stdout
           = (Returned tt, fs, stdout ++ universal_newlines text ++ [LF])).
Proof.
  intros self fs stdout. split.
  - intros H. unfold display, lines. rewrite H. reflexivity.
  - intros text H Hin. unfold display, lines. rewrite H.
    rewrite transform_flat_map.
    assert (T : flat_map line_output (readlines text) = readlines text).
    { rewrite <- transform_flat_map.
      revert Hin. generalize (readlines text). intros xs Hin.
      rewrite transform_flat_map.
      induction xs as [|x xs IH]; [reflexivity|].
      simpl in Hin. apply andb_true_iff in Hin as [Hx Hxs].
      cbn [flat_map]. unfold line_output at 1.
      rewrite (rewrite_line_inert x Hx), (IH Hxs). reflexivity. }
    rewrite T, join_empty. unfold readlines.
    rewrite concat_split_lines. reflexivity.
Qed.

Lemma display_output_witness :
  display job (fun _ => None) [] = (Raised_OSError, (fun _ => None), [])
  /\ display job plain_files []
     = (Returned tt, plain_files,
        [] ++ universal_newlines (py "x = y + 1" ++ [CR; LF] ++ py "z = x")
           ++ [LF]).
Proof.
  split.
  - apply (proj1 (display_output job (fun _ => None) [])). reflexivity.
  - apply (proj2 (display_output job plain_files [])
             (py "x = y + 1" ++ [CR; LF] ++ py "z = x")).
    + reflexivity.
    + vm_compute. reflexivity.
Defined.

(** X14.  Whenever the signature pattern matches, wherever on the line, the
    line reads [pre ws def name mid ( args ) post] with [ws], [name] and
    [args] the three groups of the match, and the cleaner returns exactly
    [{ws}def {name}({clean_args args}):\n]: the result is built from the
    three groups only, so [pre], [mid] and [post] are not in it.  In the
    result [ws] is whitespace only, [name] is a non-empty run of word
    characters, and the cleaned parameters hold no opening parenthesis, no
    newline and no [": "]. *)
Theorem cleaner_output_shape :
  forall (l : str) (m : Match),
    search signature_pattern l = Some m ->
    (exists pre mid post,
        l = pre ++ group 1 m ++ py "def " ++ group 2 m ++ mid
              ++ py "(" ++ group 3 m ++ py ")" ++ post)
    /\ clean_function_definition l
       = group 1 m ++ py "def " ++ group 2 m ++ py "("
           ++ clean_args (group 3 m) ++ py "):" ++ [LF]
    /\ forallb isspace (group 1 m) = true
    /\ group 2 m <> [] /\ forallb is_word (group 2 m) = true
    /\ ~ In "("%char (clean_args (group 3 m))
    /\ ~ In LF (clean_args (group 3 m))
    /\ contains (clean_args (group 3 m)) (py ": ") = false.
Proof.
  intros l m H.
  apply clean_function_definition_some in H
    as (pre & ws & name & mid & args & post & -> & C & G & Epre & ->).
  destruct C as (E & Hws & Hne & Hname & _ & Hargs).
  destruct G as (_ & Hpar & _). rewrite E in Epre.
  unfold group. cbn [nth Nat.sub].
  split; [exists pre, mid, post; exact Epre|].
  split; [reflexivity|]. repeat split; auto.
  - intros I. apply clean_args_In in I as [I|I]; [revert I; not_among|].
    exact (Hpar I).
  - intros I. apply clean_args_In in I as [I|I]; [revert I; not_among|].
    apply forallb_dot in Hargs. exact (Hargs I).
  - rewrite clean_args_before_first. apply join_no_annotation.
    intros p I. apply (clean_args_fields args p I).
Qed.

Lemma cleaner_output_shape_witness :
  (exists pre mid post,
      defs_line = pre ++ py " " ++ py "def " ++ py "f" ++ mid
                    ++ py "(" ++ py "a: Int" ++ py ")" ++ post)
  /\ clean_function_definition defs_line
     = py " " ++ py "def " ++ py "f" ++ py "("
         ++ clean_args (py "a: Int") ++ py "):" ++ [LF]
  /\ forallb isspace (py " ") = true
  /\ py "f" <> [] /\ forallb is_word (py "f") = true
  /\ ~ In "("%char (clean_args (py "a: Int"))
  /\ ~ In LF (clean_args (py "a: Int"))
  /\ contains (clean_args (py "a: Int")) (py ": ") = false.
Proof.
  apply (cleaner_output_shape defs_line [py " "; py "f"; py "a: Int"]).
  vm_compute. reflexivity.
Defined.
